(** * signalk-windy-plugin: a shallow embedding of [index.js]

    The plugin keeps the latest sensor readings of a vessel in a handful of
    variables of the closure [module.exports = function(app) {...}], and
    posts a weather observation to stations.windy.com on a timer.

    Conventions of the embedding:
    - a JavaScript number is a rational ([Q]).  The values of a delta are
      decoded to the nearest double, and the arithmetic of the ingestor on
      them ([rad * 57.2958], [deg - 273.15], [100 * x]) is rounded as IEEE
      754 does ([Num.nearest]); the median and the knots of the status
      string are computed exactly.  A decimal read back by [parseFloat] is
      kept as the decimal it is;
    - [undefined] and [null] of a variable are both [None]: the code tests
      them with [== null] only;
    - every callback runs to completion: a callback is a function from the
      state of the closure to a new state and the effects it had on the
      host (debug traces, status strings, HTTP requests). *)

From Stdlib Require Import ZArith QArith Qabs Qround Lqa Lia.
From Stdlib Require Import Sorted Permutation.
From stdpp Require Import gmap strings list pretty.

Local Open Scope Q_scope.

(** ** Numbers *)

Module Num.

(** [Math.floor], as the integer it is *)
Definition floor (x : Q) : Z := Qfloor x.

(** [Math.round]: the integer nearest to [x], ties towards +infinity. *)
Definition round (x : Q) : Z := Qfloor (x + (1 # 2)).

(** [parseFloat(x.toFixed(d))]: [toFixed] picks the integer [n] for which
    [n / 10^d - x] is closest to zero, the larger [n] on a tie, after it
    has taken the sign off; [parseFloat] reads the decimal back. *)
Definition toFixed (d : nat) (x : Q) : Q :=
  let scale := inject_Z (10 ^ Z.of_nat d) in
  let n := Qfloor (Qabs x * scale + (1 # 2)) in
  Qred ((if Qlt_le_dec x 0 then inject_Z (- n) else inject_Z n) / scale).

(** [a > b] on numbers *)
Definition gtb (a b : Q) : bool := negb (Qle_bool a b).

(** [2^k] *)
Definition pow2 (k : Z) : Q := Qpower 2 k.

(** The binary exponent [e] of a positive [x]: [2^e <= x < 2^(e+1)].  The
    difference of the logarithms of numerator and denominator is [e] or
    [e + 1]. *)
Definition exponent (x : Q) : Z :=
  let k := (Z.log2 (Qnum x) - Z.log2 (Zpos (Qden x)))%Z in
  if Qle_bool (pow2 k) x then k else (k - 1)%Z.

(** the integer nearest to [y], the even one on a tie *)
Definition half_even (y : Q) : Z :=
  let f := Qfloor y in
  match Qcompare (y - inject_Z f) (1 # 2) with
  | Lt => f
  | Gt => (f + 1)%Z
  | Eq => if Z.even f then f else (f + 1)%Z
  end.

(** The double nearest to [x]: IEEE 754 binary64, round to nearest, ties to
    even, with a significand of 53 bits and gradual underflow below
    [2^-1022].  The range is tested apart, by [overflows]. *)
Definition nearest (x : Q) : Q :=
  if Qeq_bool x 0 then 0 else
  let u := Z.max (exponent (Qabs x) - 52) (-1074) in
  Qred (inject_Z (half_even (x / pow2 u)) * pow2 u).

(** a rounded result beyond the greatest double *)
Definition overflows (x : Q) : bool := Qle_bool (pow2 1024) (Qabs x).

Arguments nearest : simpl never.
Arguments overflows : simpl never.
Arguments toFixed : simpl never.

(** [String(x)] for a number with at most one decimal: the digits of the
    integer part, then the decimal when it is not zero. *)
Definition toString (x : Q) : string :=
  let tenths := Qfloor (x * 10) in
  let a := Z.abs tenths in
  (if (tenths <? 0)%Z then "-" else "")
    +:+ pretty (a / 10)%Z
    +:+ (if (a mod 10 =? 0)%Z then "" else "." +:+ pretty (a mod 10)%Z).

End Num.

(** ** Arrays

    An array is an object: a variable holds a reference to it, and
    [Array.prototype.sort] and [push] change it in place.  The store maps
    references to the arrays' contents. *)

Module Arr.

Abbreviation ref := nat.
Abbreviation store := (gmap ref (list Q)).

(** [arr[i]]: [None] is [undefined] (an index out of range). *)
Definition get (l : list Q) (i : Z) : option Q :=
  if (i <? 0)%Z then None else l !! Z.to_nat i.

(** The insertion step of a sort by comparator [cmp]: [x] goes behind the
    elements [y] with [cmp x y > 0]. *)
Fixpoint insert (cmp : Q -> Q -> Q) (x : Q) (l : list Q) : list Q :=
  match l with
  | [] => [x]
  | y :: l' => if Num.gtb (cmp x y) 0 then y :: insert cmp x l' else x :: l
  end.

(** [Array.prototype.sort(cmp)] on the contents.  ECMAScript leaves the
    algorithm open but wants it stable: with a consistent comparator that
    fixes the result, which is the one of insertion sort. *)
Definition sorted_by (cmp : Q -> Q -> Q) (l : list Q) : list Q :=
  foldr (insert cmp) [] l.

(** [[...arr]]: a new array with the contents of [arr]. *)
Definition spread (s : store) (arr : ref) : ref * store :=
  let r := fresh (dom s) in (r, <[r := default [] (s !! arr)]> s).

(** [arr.sort(cmp)]: sorts [arr] in place and returns [arr]. *)
Definition sort (cmp : Q -> Q -> Q) (s : store) (arr : ref) : ref * store :=
  (arr, alter (sorted_by cmp) arr s).

Definition contents (s : store) (arr : ref) : list Q := default [] (s !! arr).

End Arr.

(** ** [median] (index.js, lines 21-25) *)

(** the comparator of line 23 *)
Abbreviation ascending := (fun a b : Q => a - b).

(** [Math.floor(arr.length / 2)] *)
Definition middle (length : nat) : Z :=
  Num.floor (inject_Z (Z.of_nat length) / 2).

(** The [return] of line 24, from [arr.length], [mid] and the contents of
    [nums].  [None] is the [NaN] (or [undefined]) that an index out of
    range leads to. *)
Definition median_of (length : nat) (mid : Z) (nums : list Q) : option Q :=
  if negb (Z.of_nat length mod 2 =? 0)%Z
  then Arr.get nums mid
  else a ← Arr.get nums (mid - 1); b ← Arr.get nums mid; Some ((a + b) / 2).

(** [median] on the store: the spread makes a copy, [sort] sorts the copy
    in place. *)
Definition median_in (s : Arr.store) (arr : Arr.ref) : option Q * Arr.store :=
  let mid := middle (length (Arr.contents s arr)) in
  let '(copy, s1) := Arr.spread s arr in
  let '(nums, s2) := Arr.sort ascending s1 copy in
  (median_of (length (Arr.contents s2 arr)) mid (Arr.contents s2 nums), s2).

(** [median] as a function of the contents of its argument. *)
Definition median (arr : list Q) : option Q :=
  median_of (length arr) (middle (length arr)) (Arr.sorted_by ascending arr).

(** ** Values and configuration *)

(** A decoded value of a delta: the subscribed paths carry numbers, [null]
    or a position object.  [VNum q] is the number that the literal [q]
    denotes, a finite double: [Num.nearest q]. *)
Inductive value : Type :=
| VNull
| VNum (q : Q)
| VPosition (latitude longitude : Q).

(** The result of arithmetic on a value: a number, an infinity (of an
    overflow), or [NaN]. *)
Inductive number : Type :=
| Fin (q : Q)
| Infinity (negative : bool)
| NaN.

Inductive error : Type :=
| ReferenceError (name : string)
| TypeError (what : string).

(** [Number(v)], the coercion of the arithmetic operators *)
Definition toNumber (v : value) : number :=
  match v with
  | VNull => Fin 0
  | VNum q => Fin (Num.nearest q)
  | VPosition _ _ => NaN
  end.

(** [parseFloat(v)]: reads a number off the string of [v] *)
Definition parseFloat (v : value) : number :=
  match v with
  | VNum q => Fin (Num.nearest q)
  | VNull | VPosition _ _ => NaN
  end.

(** a function of numbers that keeps the infinities and [NaN], as
    [Math.round] and [parseFloat(x.toFixed(d))] do *)
Definition lift (f : Q -> Q) (n : number) : number :=
  match n with
  | Fin q => Fin (f q)
  | Infinity negative => Infinity negative
  | NaN => NaN
  end.

(** the double that an exact result [x] is rounded to *)
Definition rounded (x : Q) : number :=
  let r := Num.nearest x in
  if Num.overflows r then Infinity (if Qlt_le_dec x 0 then true else false)
  else Fin r.

(** [n * c] and [n - c] in double arithmetic, for a positive double [c] *)
Definition times (c : Q) (n : number) : number :=
  match n with
  | Fin x => rounded (x * c)
  | Infinity negative => Infinity negative
  | NaN => NaN
  end.

Definition minus (c : Q) (n : number) : number :=
  match n with
  | Fin x => rounded (x - c)
  | Infinity negative => Infinity negative
  | NaN => NaN
  end.

(** the object behind [options.paths] *)
Record Paths : Type := {
  paths_position : option string;
  paths_windDirection : option string;
  paths_windSpeed : option string;
  paths_waterTemperature : option string;
  paths_outsideTemperature : option string;
  paths_pressure : option string;
  paths_humidity : option string
}.

(** the configuration object that the host hands to [plugin.start] *)
Record Options : Type := {
  apiKey : option string;
  submitInterval : Q;
  stationId : Q;
  provider : option string;
  url : option string;
  paths : option Paths
}.

Definition no_paths : Paths := Build_Paths None None None None None None None.

(** ** The variables of the closure (index.js, lines 28-42) *)

Record State : Type := {
  unsubscribes : list nat;
  submitProcess : option nat;
  statusProcess : option nat;
  lastSuccessfulUpdate : option Z;
  name : option string;
  position : option value;
  windSpeed : list Q;
  windGust : option Q;
  windDirection : option number;
  waterTemperature : option number;
  temperature : option number;
  pressure : option number;
  humidity : option number
}.

Definition initial (name : option string) : State :=
  {| unsubscribes := []; submitProcess := None; statusProcess := None;
     lastSuccessfulUpdate := None; name := name;
     position := None; windSpeed := []; windGust := None;
     windDirection := None; waterTemperature := None; temperature := None;
     pressure := None; humidity := None |}.

(** Assignments to the variables *)
Definition set_position (v : option value) (s : State) : State :=
  {| unsubscribes := unsubscribes s; submitProcess := submitProcess s;
     statusProcess := statusProcess s;
     lastSuccessfulUpdate := lastSuccessfulUpdate s; name := name s;
     position := v; windSpeed := windSpeed s; windGust := windGust s;
     windDirection := windDirection s;
     waterTemperature := waterTemperature s; temperature := temperature s;
     pressure := pressure s; humidity := humidity s |}.

Definition set_windSpeed (v : list Q) (s : State) : State :=
  {| unsubscribes := unsubscribes s; submitProcess := submitProcess s;
     statusProcess := statusProcess s;
     lastSuccessfulUpdate := lastSuccessfulUpdate s; name := name s;
     position := position s; windSpeed := v; windGust := windGust s;
     windDirection := windDirection s;
     waterTemperature := waterTemperature s; temperature := temperature s;
     pressure := pressure s; humidity := humidity s |}.

Definition set_windGust (v : option Q) (s : State) : State :=
  {| unsubscribes := unsubscribes s; submitProcess := submitProcess s;
     statusProcess := statusProcess s;
     lastSuccessfulUpdate := lastSuccessfulUpdate s; name := name s;
     position := position s; windSpeed := windSpeed s;
     windGust := v; windDirection := windDirection s;
     waterTemperature := waterTemperature s; temperature := temperature s;
     pressure := pressure s; humidity := humidity s |}.

Definition set_windDirection (v : option number) (s : State) : State :=
  {| unsubscribes := unsubscribes s; submitProcess := submitProcess s;
     statusProcess := statusProcess s;
     lastSuccessfulUpdate := lastSuccessfulUpdate s; name := name s;
     position := position s; windSpeed := windSpeed s;
     windGust := windGust s; windDirection := v;
     waterTemperature := waterTemperature s; temperature := temperature s;
     pressure := pressure s; humidity := humidity s |}.

Definition set_waterTemperature (v : option number) (s : State) : State :=
  {| unsubscribes := unsubscribes s; submitProcess := submitProcess s;
     statusProcess := statusProcess s;
     lastSuccessfulUpdate := lastSuccessfulUpdate s; name := name s;
     position := position s; windSpeed := windSpeed s;
     windGust := windGust s;
     windDirection := windDirection s;
     waterTemperature := v; temperature := temperature s;
     pressure := pressure s; humidity := humidity s |}.

Definition set_temperature (v : option number) (s : State) : State :=
  {| unsubscribes := unsubscribes s; submitProcess := submitProcess s;
     statusProcess := statusProcess s;
     lastSuccessfulUpdate := lastSuccessfulUpdate s; name := name s;
     position := position s; windSpeed := windSpeed s;
     windGust := windGust s;
     windDirection := windDirection s;
     waterTemperature := waterTemperature s; temperature := v;
     pressure := pressure s; humidity := humidity s |}.

Definition set_pressure (v : option number) (s : State) : State :=
  {| unsubscribes := unsubscribes s; submitProcess := submitProcess s;
     statusProcess := statusProcess s;
     lastSuccessfulUpdate := lastSuccessfulUpdate s; name := name s;
     position := position s; windSpeed := windSpeed s;
     windGust := windGust s;
     windDirection := windDirection s;
     waterTemperature := waterTemperature s;
     temperature := temperature s;
     pressure := v; humidity := humidity s |}.

Definition set_humidity (v : option number) (s : State) : State :=
  {| unsubscribes := unsubscribes s; submitProcess := submitProcess s;
     statusProcess := statusProcess s;
     lastSuccessfulUpdate := lastSuccessfulUpdate s; name := name s;
     position := position s; windSpeed := windSpeed s;
     windGust := windGust s;
     windDirection := windDirection s;
     waterTemperature := waterTemperature s;
     temperature := temperature s;
     pressure := pressure s; humidity := v |}.

Definition set_lastSuccessfulUpdate (v : option Z) (s : State) : State :=
  {| unsubscribes := unsubscribes s; submitProcess := submitProcess s;
     statusProcess := statusProcess s;
     lastSuccessfulUpdate := v; name := name s;
     position := position s; windSpeed := windSpeed s;
     windGust := windGust s;
     windDirection := windDirection s;
     waterTemperature := waterTemperature s;
     temperature := temperature s;
     pressure := pressure s; humidity := humidity s |}.

Definition set_unsubscribes (v : list nat) (s : State) : State :=
  {| unsubscribes := v; submitProcess := submitProcess s;
     statusProcess := statusProcess s;
     lastSuccessfulUpdate := lastSuccessfulUpdate s;
     name := name s;
     position := position s; windSpeed := windSpeed s;
     windGust := windGust s;
     windDirection := windDirection s;
     waterTemperature := waterTemperature s;
     temperature := temperature s;
     pressure := pressure s; humidity := humidity s |}.

Definition set_statusProcess (v : option nat) (s : State) : State :=
  {| unsubscribes := unsubscribes s;
     submitProcess := submitProcess s; statusProcess := v;
     lastSuccessfulUpdate := lastSuccessfulUpdate s;
     name := name s;
     position := position s; windSpeed := windSpeed s;
     windGust := windGust s;
     windDirection := windDirection s;
     waterTemperature := waterTemperature s;
     temperature := temperature s;
     pressure := pressure s; humidity := humidity s |}.

Definition set_submitProcess (v : option nat) (s : State) : State :=
  {| unsubscribes := unsubscribes s;
     submitProcess := v; statusProcess := statusProcess s;
     lastSuccessfulUpdate := lastSuccessfulUpdate s;
     name := name s;
     position := position s; windSpeed := windSpeed s;
     windGust := windGust s;
     windDirection := windDirection s;
     waterTemperature := waterTemperature s;
     temperature := temperature s;
     pressure := pressure s; humidity := humidity s |}.

(** ** The ingestor: [processDelta] (index.js, lines 251-309) *)

Record PathValue : Type := { path : string; value_of : value }.
Record Update : Type := { values : option (list PathValue) }.
Record Delta : Type := { updates : option (list Update) }.

(** a delta with the single pair [path], [v] *)
Definition delta (path : string) (v : value) : Delta :=
  {| updates := Some [ {| values := Some [ {| path := path; value_of := v |} ] |} ] |}.

Inductive completion (A : Type) : Type :=
| Normal (a : A)
| Throw (e : error).
Arguments Normal {A} a.
Arguments Throw {A} e.

Definition radiantToDegrees (rad : number) : number :=
  times (Num.nearest (572958 # 10000)) rad.

Definition kelvinToCelsius (deg : number) : number :=
  minus (Num.nearest (27315 # 100)) deg.

(** The variables that the [switch] of [processDelta] assigns to. *)
Inductive field : Type :=
| FPosition | FWindSpeed | FWindDirection | FWaterTemperature
| FTemperature | FPressure | FHumidity.

(** The [case] labels of the [switch], in the order of the source: the
    literal of the first label, the property of [options.paths] that the
    second label reads, and the block the two labels lead to. *)
Definition clauses : list (string * (Paths -> option string) * field) :=
  [ ("navigation.position", paths_position, FPosition);
    ("environment.wind.speedOverGround", paths_windSpeed, FWindSpeed);
    ("environment.wind.directionGround", paths_windDirection, FWindDirection);
    ("environment.water.temperature", paths_waterTemperature, FWaterTemperature);
    ("environment.outside.temperature", paths_outsideTemperature, FTemperature);
    ("environment.outside.pressure", paths_pressure, FPressure);
    ("environment.outside.humidity", paths_humidity, FHumidity) ].

(** [options.paths?.p], evaluated inside [processDelta].  [options] is the
    parameter of [plugin.start] (line 120), whose body ends at line 243;
    [processDelta] is declared at line 259, in the body of [function(app)],
    which declares no [options].  So the identifier is looked up in the
    global object: [scope] is what it finds there, and when the global
    object has no such property the evaluation throws a ReferenceError. *)
Definition label (scope : option Options) (p : Paths -> option string)
  : completion (option string) :=
  match scope with
  | None => Throw (ReferenceError "options")
  | Some options => Normal (paths options ≫= p)
  end.

(** The selection of a clause: the labels are evaluated one after the
    other, and compared with [===], until one is equal to [path]. *)
Fixpoint select (scope : option Options) (path : string)
    (cs : list (string * (Paths -> option string) * field))
  : completion (option field) :=
  match cs with
  | [] => Normal None
  | (literal, p, f) :: cs' =>
      if String.eqb path literal then Normal (Some f)
      else match label scope p with
           | Throw e => Throw e
           | Normal configured =>
               if bool_decide (configured = Some path) then Normal (Some f)
               else select scope path cs'
           end
  end.

Inductive message : Type :=
| Text (s : string)
| SubmittingEvery (minutes : Q)
| StartingEvery (minutes : Q)
| UnknownPath (path : string).

(** The block of the selected clause. *)
Definition assign (f : field) (v : value) (s : State) : completion State :=
  match f with
  | FPosition =>
      Normal (set_position (match v with VNull => None | _ => Some v end) s)
  | FWindSpeed =>
      match v with
      | VNum q =>
          let speed := Num.toFixed 2 (Num.nearest q) in
          let s1 :=
            match windGust s with
            | None => set_windGust (Some speed) s
            | Some gust =>
                if Num.gtb speed gust then set_windGust (Some speed) s else s
            end in
          Normal (set_windSpeed (windSpeed s1 ++ [speed]) s1)
      | VNull | VPosition _ _ => Throw (TypeError "value.toFixed")
      end
  | FWindDirection =>
      Normal (set_windDirection
                (Some (lift (fun x => inject_Z (Num.round x))
                         (radiantToDegrees (toNumber v)))) s)
  | FWaterTemperature =>
      Normal (set_waterTemperature
                (Some (lift (Num.toFixed 1) (kelvinToCelsius (toNumber v)))) s)
  | FTemperature =>
      Normal (set_temperature
                (Some (lift (Num.toFixed 1) (kelvinToCelsius (toNumber v)))) s)
  | FPressure =>
      Normal (set_pressure (Some (parseFloat v)) s)
  | FHumidity =>
      Normal (set_humidity
                (Some (lift (fun x => inject_Z (Num.round x))
                         (times 100 (parseFloat v)))) s)
  end.

(** [processDelta]: the new state and the debug traces, or the exception
    that leaves it.  No assignment comes before a point that can throw, so
    the state is the old one when it throws. *)
Definition processDelta (scope : option Options) (data : Delta) (s : State)
  : completion (State * list message) :=
  match updates data with
  | None | Some [] => Normal (s, [])
  | Some (u :: _) =>
      match values u with
      | None | Some [] => Normal (s, [])
      | Some (dict :: _) =>
          match select scope (path dict) clauses with
          | Throw e => Throw e
          | Normal None => Normal (s, [UnknownPath (path dict)])
          | Normal (Some f) =>
              match assign f (value_of dict) s with
              | Throw e => Throw e
              | Normal s' => Normal (s', [])
              end
          end
      end
  end.

(** ** The status reporter (index.js, lines 163-185 and 311-344) *)

(** [timeSince(date)] at the time [now], both in milliseconds. *)
Definition timeSince (now date : Z) : string :=
  let seconds := inject_Z (Num.floor (inject_Z (now - date) / 1000)) in
  let interval := seconds / 31536000 in
  if Num.gtb interval 1 then pretty (Num.floor interval) +:+ " years" else
  let interval := seconds / 2592000 in
  if Num.gtb interval 1 then pretty (Num.floor interval) +:+ " months" else
  let interval := seconds / 86400 in
  if Num.gtb interval 1 then pretty (Num.floor interval) +:+ " days" else
  let interval := seconds / 3600 in
  if Num.gtb interval 1 then
    let time := Num.floor interval in
    if (time =? 1)%Z then pretty time +:+ " hour" else pretty time +:+ " hours"
  else
  let interval := seconds / 60 in
  if Num.gtb interval 1 then
    let time := Num.floor interval in
    if (time =? 1)%Z then pretty time +:+ " minute"
    else pretty time +:+ " minutes"
  else pretty (Num.floor seconds) +:+ " seconds".
(* [return (msg = ...)] also assigns the string to a global [msg], which
   nothing reads. *)

Definition metersPerSecondToKnots (ms : Q) : Q :=
  inject_Z (Num.round (ms * (194384 # 100000) * 10)) / 10.

(** The body of the status timer: the status string it publishes. *)
Definition statusTick (now : Z) (s : State) : string :=
  let statusMessage :=
    match lastSuccessfulUpdate s with
    | Some t =>
        if (t =? 0)%Z then "No data has been submitted yet. "
        else "Successful submission " +:+ timeSince now t +:+ " ago. "
    | None => "No data has been submitted yet. "
    end in
  match last (windSpeed s), windGust s with
  | Some currentWindSpeed, Some gust =>
      statusMessage +:+ "Wind speed is "
        +:+ Num.toString (metersPerSecondToKnots currentWindSpeed)
        +:+ "kts and gust is "
        +:+ Num.toString (metersPerSecondToKnots gust) +:+ "kts."
  | _, _ => statusMessage
  end.

(** ** The submitter (index.js, lines 187-242) *)

Definition API_BASE : string := "https://stations.windy.com./pws/update/".

Record Station : Type := {
  station : Q;
  station_name : option string;
  shareOption : string;
  type : string;
  station_provider : option string;
  station_url : option string;
  lat : option Q;
  lon : option Q;
  elevation : Q
}.

Record Observation : Type := {
  observation_station : Q;
  temp : option number;
  wind : option Q;          (* [None] is [NaN] *)
  gust : option Q;
  winddir : option number;
  observation_pressure : option number;
  rh : option number
}.

Record Data : Type := {
  stations : list Station;
  observations : list Observation
}.

Record HttpOptions : Type := {
  uri : string;
  method : string;
  json : Data
}.

(** [position.latitude], [position.longitude] *)
Definition latitude (v : value) : option Q :=
  match v with VPosition la _ => Some la | _ => None end.
Definition longitude (v : value) : option Q :=
  match v with VPosition _ lo => Some lo | _ => None end.

(** What a callback asks of the host. *)
Inductive effect : Type :=
| Debug (m : message)
| DebugData (data : Data)
| DebugBody (body : string)
| AppError (m : string)
| SetPluginStatus (m : message)
| Request (httpOptions : HttpOptions)
| Uncaught (e : error).

(** The body of the submit timer.  It reads the variables and changes
    none. *)
Definition submitTick (options : Options) (s : State) : list effect :=
  match position s, windSpeed s, windDirection s, temperature s with
  | Some pos, _ :: _, Some dir, Some t =>
      let data :=
        {| stations :=
             [ {| station := stationId options;
                  station_name := name s;
                  shareOption := "Open";
                  type := "Boat (powered by Saillogger.com Signal K plugin)";
                  station_provider := provider options;
                  station_url := url options;
                  lat := latitude pos;
                  lon := longitude pos;
                  elevation := 1 |} ];
           observations :=
             [ {| observation_station := stationId options;
                  temp := Some t;
                  wind := median (windSpeed s);
                  gust := windGust s;
                  winddir := Some dir;
                  observation_pressure := pressure s;
                  rh := humidity s |} ] |} in
      let httpOptions :=
        {| uri := API_BASE +:+ default "undefined" (apiKey options);
           method := "POST";
           json := data |} in
      [ DebugData data; Request httpOptions ]
  | _, _, _, _ =>
      [ Debug (Text ("Not submitting position due to lack of position, wind "
                     +:+ "speed, wind direction or temperature.")) ]
  end.

(** What [request] calls back with: an error, or a response and its body. *)
Inductive reply : Type :=
| Failed (error : string) (body : string)
| Response (statusCode : Z) (body : string).

(** The assignments after a successful submission (lines 228-236). *)
Definition submitted (now : Z) (s : State) : State :=
  set_humidity None
    (set_pressure None
       (set_temperature None
          (set_waterTemperature None
             (set_windDirection None
                (set_windGust None
                   (set_windSpeed []
                      (set_position None
                         (set_lastSuccessfulUpdate (Some now) s)))))))).

(** The callback of [request], at the time [now]. *)
Definition onReply (now : Z) (r : reply) (s : State) : State * list effect :=
  match r with
  | Response statusCode body =>
      if (statusCode =? 200)%Z
      then (submitted now s,
            [ Debug (Text "Weather report successfully submitted") ])
      else (s, [ Debug (Text "Error submitting to Windy.com API");
                 DebugBody body ])
  | Failed _ body =>
      (s, [ Debug (Text "Error submitting to Windy.com API"); DebugBody body ])
  end.

(** ** The host and the life cycle (index.js, lines 120-161 and 245-249) *)

Definition POLL_INTERVAL : Q := 1.

(** The two functions handed to [setInterval]; the submit function has
    [options] of [plugin.start] in its closure. *)
Inductive callback : Type :=
| StatusCallback
| SubmitCallback (options : Options).

Record Subscribe : Type := { subscribe_path : string; period : Q }.

(** The part of the host the plugin acts on: the intervals of the event
    loop, the subscriptions of the subscription manager, the requests on
    their way, the property [options] of the global object (Node.js has
    none), and what the plugin has asked of the host so far. *)
Record Host : Type := {
  intervals : gmap nat (callback * Q);
  subscriptions : gmap nat (list Subscribe);
  inflight : nat;
  global_options : option Options;
  asked : list effect
}.

Definition node : Host :=
  {| intervals := ∅; subscriptions := ∅; inflight := 0;
     global_options := None; asked := [] |}.

(** the requests among the effects of a callback *)
Definition requests (es : list effect) : list HttpOptions :=
  omap (λ e, match e with Request o => Some o | _ => None end) es.

(** the exceptions that left a callback *)
Definition uncaught (es : list effect) : list error :=
  omap (λ e, match e with Uncaught x => Some x | _ => None end) es.

Definition ask (es : list effect) (h : Host) : Host :=
  {| intervals := intervals h; subscriptions := subscriptions h;
     inflight := inflight h + length (requests es);
     global_options := global_options h; asked := asked h ++ es |}.

(** [setInterval(f, ms)]: a new interval, and its identifier *)
Definition setInterval (f : callback) (ms : Q) (h : Host) : nat * Host :=
  let id := fresh (dom (intervals h)) in
  (id, {| intervals := <[id := (f, ms)]> (intervals h);
          subscriptions := subscriptions h; inflight := inflight h;
          global_options := global_options h; asked := asked h |}).

(** [clearInterval(id)]; nothing happens when [id] is [undefined] *)
Definition clearInterval (id : option nat) (h : Host) : Host :=
  match id with
  | None => h
  | Some i =>
      {| intervals := delete i (intervals h);
         subscriptions := subscriptions h; inflight := inflight h;
         global_options := global_options h; asked := asked h |}
  end.

(** [app.subscriptionmanager.subscribe(subscription, unsubscribes, ...)]:
    the manager registers the subscription and pushes the function that
    removes it onto [unsubscribes]; the function is the identifier here. *)
Definition subscribe (subscription : list Subscribe) (h : Host) : nat * Host :=
  let id := fresh (dom (subscriptions h)) in
  (id, {| intervals := intervals h;
          subscriptions := <[id := subscription]> (subscriptions h);
          inflight := inflight h;
          global_options := global_options h; asked := asked h |}).

(** a function of [unsubscribes], when it is called; the plugin holds these
    functions and has no call of them *)
Definition unsubscribe (id : nat) (h : Host) : Host :=
  {| intervals := intervals h;
     subscriptions := delete id (subscriptions h);
     inflight := inflight h;
     global_options := global_options h; asked := asked h |}.

(** [a || b] on strings that may be [undefined] *)
Definition or_else (a : option string) (b : string) : string :=
  match a with
  | Some s => if String.eqb s "" then b else s
  | None => b
  end.

Definition World : Type := Host * State.

(** [plugin.start(options)] *)
Definition start (options : Options) (w : World) : World :=
  let '(h, s) := w in
  match apiKey options with
  | None | Some "" => (ask [AppError "API Key is required"] h, s)
  | Some _ =>
      let p := default no_paths (paths options) in
      let options :=
        {| apiKey := apiKey options; submitInterval := submitInterval options;
           stationId := stationId options; provider := provider options;
           url := url options; paths := Some p |} in
      let h := ask [SetPluginStatus (SubmittingEvery (submitInterval options))] h in
      let subscription :=
        [ {| subscribe_path := or_else (paths_position p) "navigation.position";
             period := POLL_INTERVAL * 1000 |};
          {| subscribe_path :=
               or_else (paths_windDirection p) "environment.wind.directionGround";
             period := POLL_INTERVAL * 1000 |};
          {| subscribe_path :=
               or_else (paths_windSpeed p) "environment.wind.speedOverGround";
             period := POLL_INTERVAL * 1000 |};
          {| subscribe_path :=
               or_else (paths_waterTemperature p) "environment.water.temperature";
             period := POLL_INTERVAL * 1000 |};
          {| subscribe_path :=
               or_else (paths_outsideTemperature p)
                       "environment.outside.temperature";
             period := POLL_INTERVAL * 1000 |};
          {| subscribe_path :=
               or_else (paths_pressure p) "environment.outside.pressure";
             period := POLL_INTERVAL * 1000 |};
          {| subscribe_path :=
               or_else (paths_humidity p) "environment.outside.humidity";
             period := POLL_INTERVAL * 1000 |} ] in
      let '(sub, h) := subscribe subscription h in
      let s := set_unsubscribes (unsubscribes s ++ [sub]) s in
      let h := ask [Debug (StartingEvery (submitInterval options))] h in
      let '(id, h) := setInterval StatusCallback (5 * 1000) h in
      let s := set_statusProcess (Some id) s in
      let '(id, h) :=
        setInterval (SubmitCallback options)
                    (submitInterval options * 60 * 1000) h in
      let s := set_submitProcess (Some id) s in
      (h, s)
  end.

(** [plugin.stop()] *)
Definition stop (w : World) : World :=
  let '(h, s) := w in
  let h := clearInterval (statusProcess s) h in
  let h := clearInterval (submitProcess s) h in
  (ask [SetPluginStatus (Text "Pluggin stopped")] h, s).

(** ** The event loop

    What the host can run next: an entry point of the plugin, an interval
    that is due, a delta of a subscription, the completion of a request. *)
Inductive event : Type :=
| Start (options : Options)
| Stop
| Interval (id : nat) (now : Z)
| Deliver (sub : nat) (data : Delta)
| Complete (now : Z) (r : reply).

Definition react (e : event) (w : World) : World :=
  let '(h, s) := w in
  match e with
  | Start options => start options w
  | Stop => stop w
  | Interval id now =>
      match intervals h !! id with
      | Some (StatusCallback, _) =>
          (ask [SetPluginStatus (Text (statusTick now s))] h, s)
      | Some (SubmitCallback options, _) => (ask (submitTick options s) h, s)
      | None => w
      end
  | Deliver sub data =>
      match subscriptions h !! sub with
      | Some _ =>
          match processDelta (global_options h) data s with
          | Normal (s', ms) => (ask (Debug <$> ms) h, s')
          | Throw e => (ask [Uncaught e] h, s)
          end
      | None => w
      end
  | Complete now r =>
      match inflight h with
      | O => w
      | S n =>
          let '(s', es) := onReply now r s in
          (ask es {| intervals := intervals h;
                     subscriptions := subscriptions h; inflight := n;
                     global_options := global_options h;
                     asked := asked h |}, s')
      end
  end.

(** the world after a run of events *)
Definition run (es : list event) (w : World) : World :=
  foldl (λ w e, react e w) w es.

(** ** The buckets of the elapsed time, in the words of the specification

    Descending unit buckets with strict thresholds; each count is the
    integer quotient of the seconds by the size of the bucket; singular and
    plural differ for hours and minutes only. *)

Definition bucket (seconds size : Z) (unit : string) : string :=
  pretty (seconds / size)%Z +:+ " " +:+ unit.

Definition bucket_plural (seconds size : Z) (unit : string) : string :=
  if (seconds / size =? 1)%Z then bucket seconds size unit
  else bucket seconds size (unit +:+ "s").

Definition humanized (seconds : Z) : string :=
  if (31536000 <? seconds)%Z then bucket seconds 31536000 "years"
  else if (2592000 <? seconds)%Z then bucket seconds 2592000 "months"
  else if (86400 <? seconds)%Z then bucket seconds 86400 "days"
  else if (3600 <? seconds)%Z then bucket_plural seconds 3600 "hour"
  else if (60 <? seconds)%Z then bucket_plural seconds 60 "minute"
  else bucket seconds 1 "seconds".

(** ** The mapping of the ingestor, in the words of the specification *)






(** the path [p] is the default name of a clause, or the one configured
    for it *)
Definition names (options : Options) (p : string)
    (c : string * (Paths -> option string) * field) : Prop :=
  p = c.1.1 ∨ paths options ≫= c.1.2 = Some p.

(** two arrays with equal numbers at equal places *)
Abbreviation pointwise := (Forall2 Qeq).

(** ** A configuration and a state for the examples *)

Definition configured : Options :=
  {| apiKey := Some "key"; submitInterval := 5; stationId := 100;
     provider := None; url := None; paths := None |}.

(** a configuration with a path of its own for the wind speed *)
Definition apparent : Options :=
  {| apiKey := Some "key"; submitInterval := 5; stationId := 100;
     provider := None; url := None;
     paths := Some {| paths_position := None; paths_windDirection := None;
                      paths_windSpeed := Some "environment.wind.speedApparent";
                      paths_waterTemperature := None;
                      paths_outsideTemperature := None;
                      paths_pressure := None; paths_humidity := None |} |}.


(** a state with a complete observation *)
Definition observed : State :=
  {| unsubscribes := [0%nat]; submitProcess := Some 1%nat;
     statusProcess := Some 0%nat;
     lastSuccessfulUpdate := Some 1000%Z; name := Some "Vessel";
     position := Some (VPosition 41 (-70)); windSpeed := [5; 7];
     windGust := Some 7; windDirection := Some (Fin 90);
     waterTemperature := None; temperature := Some (Fin 27);
     pressure := None; humidity := None |}.

(** a host whose global object has a property [options], with one
    subscription *)
Definition scoped : Host :=
  {| intervals := ∅; subscriptions := {[ 0%nat := [] ]}; inflight := 0;
     global_options := Some configured; asked := [] |}.

(** ** The plugin at rest

    No request asked and none on its way, no sample, no submission yet,
    on a host without a global [options]. *)
Definition at_rest (w : World) : Prop :=
  global_options w.1 = None ∧ inflight w.1 = 0%nat
  ∧ requests (asked w.1) = []
  ∧ windSpeed w.2 = [] ∧ windGust w.2 = None
  ∧ lastSuccessfulUpdate w.2 = None.

(** ** The invariant of the gust

    [windGust] is unset exactly when there is no sample, and is otherwise
    one of the samples and not below any of them. *)
Definition gust_is_max (s : State) : Prop :=
  match windGust s with
  | Some gust => gust ∈ windSpeed s ∧ Forall (λ x, x <= gust) (windSpeed s)
  | None => windSpeed s = []
  end.

(** * Properties *)

(** ** Comparisons *)

Lemma gtb_true a b : Num.gtb a b = true <-> b < a.
Proof.
  unfold Num.gtb. rewrite negb_true_iff, <- not_true_iff_false, Qle_bool_iff.
  split; [apply Qnot_le_lt | apply Qlt_not_le].
Qed.

Lemma gtb_false a b : Num.gtb a b = false <-> a <= b.
Proof. unfold Num.gtb. rewrite negb_false_iff. apply Qle_bool_iff. Qed.

(** turns the tests of the goal and of the hypotheses into inequalities *)
Ltac order :=
  repeat match goal with
         | H : Num.gtb _ _ = true |- _ => apply gtb_true in H
         | H : Num.gtb _ _ = false |- _ => apply gtb_false in H
         | |- Num.gtb _ _ = true => apply gtb_true
         | |- Num.gtb _ _ = false => apply gtb_false
         end.

(** ** The sort of [median] *)

Section Sort.

Lemma insert_cons x y l :
  Arr.insert ascending x (y :: l) =
  if Num.gtb (x - y) 0 then y :: Arr.insert ascending x l else x :: y :: l.
Proof. reflexivity. Qed.

Lemma insert_perm x l : Arr.insert ascending x l ≡ₚ x :: l.
Proof.
  induction l as [|y l IH]; [done|].
  rewrite insert_cons. destruct (Num.gtb (x - y) 0); [|done].
  rewrite IH. apply perm_swap.
Qed.

Lemma sorted_by_perm l : Arr.sorted_by ascending l ≡ₚ l.
Proof.
  induction l as [|x l IH]; [done|].
  change (Arr.insert ascending x (Arr.sorted_by ascending l) ≡ₚ x :: l).
  rewrite insert_perm. by constructor.
Qed.

Lemma sorted_by_length l : length (Arr.sorted_by ascending l) = length l.
Proof. apply Permutation_length, sorted_by_perm. Qed.

Lemma insert_hd x y l :
  y <= x -> HdRel Qle y l -> HdRel Qle y (Arr.insert ascending x l).
Proof.
  intros Hyx [|z l' Hyz]; [by constructor|].
  rewrite insert_cons. destruct (Num.gtb (x - z) 0); by constructor.
Qed.

Lemma insert_sorted x l : Sorted Qle l -> Sorted Qle (Arr.insert ascending x l).
Proof.
  induction 1 as [|y l Hs IH Hhd]; [by repeat constructor|].
  rewrite insert_cons. destruct (Num.gtb (x - y) 0) eqn:E; order.
  - constructor; [done|]. apply insert_hd; [lra|done].
  - repeat constructor; [done..|lra].
Qed.

Lemma sorted_by_sorted l : Sorted Qle (Arr.sorted_by ascending l).
Proof.
  induction l as [|x l IH]; [constructor|].
  by apply (insert_sorted x).
Qed.

Lemma pointwise_refl (k : list Q) : pointwise k k.
Proof. induction k; constructor; [lra|done]. Qed.

Lemma pointwise_trans (k l m : list Q) :
  pointwise k l -> pointwise l m -> pointwise k m.
Proof.
  intros H. revert m. induction H; intros m Hm; inversion Hm; subst;
    constructor; [lra|auto].
Qed.

(** Numbers that are equal go to the same places. *)
Lemma insert_pointwise x l l' :
  pointwise l l' -> pointwise (Arr.insert ascending x l) (Arr.insert ascending x l').
Proof.
  induction 1 as [|y y' l l' Hy Hl IH]; [by repeat constructor|].
  rewrite !insert_cons.
  destruct (Num.gtb (x - y) 0) eqn:E, (Num.gtb (x - y') 0) eqn:E'; order;
    try lra; repeat constructor; solve [done | lra].
Qed.

(** turns a test of [insert] into its result, from the inequalities at hand *)
Ltac decide_test :=
  match goal with
  | |- context [Num.gtb ?a ?b] =>
      first [ rewrite (proj2 (gtb_true a b)) by lra
            | rewrite (proj2 (gtb_false a b)) by lra ]
  end.

Lemma insert_insert x y l :
  pointwise (Arr.insert ascending x (Arr.insert ascending y l))
            (Arr.insert ascending y (Arr.insert ascending x l)).
Proof.
  induction l as [|z l IH].
  - change (pointwise (Arr.insert ascending x [y]) (Arr.insert ascending y [x])).
    rewrite !insert_cons.
    destruct (Num.gtb (x - y) 0) eqn:E, (Num.gtb (y - x) 0) eqn:E'; order;
      try lra; repeat constructor; lra.
  - rewrite (insert_cons y z), (insert_cons x z).
    destruct (Num.gtb (y - z) 0) eqn:Eyz, (Num.gtb (x - z) 0) eqn:Exz;
      rewrite ?insert_cons, ?Eyz, ?Exz.
    + constructor; [lra|done].
    + order. repeat first [rewrite insert_cons | decide_test].
      apply pointwise_refl.
    + order. repeat first [rewrite insert_cons | decide_test].
      apply pointwise_refl.
    + destruct (Num.gtb (x - y) 0) eqn:E, (Num.gtb (y - x) 0) eqn:E'; order;
        try lra; repeat first [rewrite insert_cons | decide_test];
        repeat (constructor; [lra|]); apply pointwise_refl.
Qed.

(** The sorted copy does not depend on the order of the samples. *)
Lemma sorted_by_order l l' :
  l ≡ₚ l' -> pointwise (Arr.sorted_by ascending l) (Arr.sorted_by ascending l').
Proof.
  induction 1 as [|x l l' _ IH|x y l|l l' l'' _ IH1 _ IH2].
  - constructor.
  - by apply (insert_pointwise x).
  - apply (insert_insert y x).
  - by eapply pointwise_trans.
Qed.

End Sort.

(** ** [median] *)

Lemma get_lookup (l : list Q) (i : nat) : Arr.get l (Z.of_nat i) = l !! i.
Proof.
  unfold Arr.get. destruct (Z.ltb_spec (Z.of_nat i) 0); [lia|].
  by rewrite Nat2Z.id.
Qed.

Lemma mid_div (n : nat) : middle n = Z.of_nat (n / 2).
Proof.
  unfold middle, Num.floor. change 2 with (inject_Z 2). rewrite <- Zdiv_Qdiv.
  by rewrite (Nat2Z.inj_div n 2).
Qed.

Lemma odd_test (n : nat) :
  negb (Z.of_nat n mod 2 =? 0)%Z = bool_decide ((n mod 2)%nat = 1%nat).
Proof.
  pose proof (Nat.mod_upper_bound n 2 ltac:(lia)).
  change 2%Z with (Z.of_nat 2). rewrite <- Nat2Z.inj_mod.
  destruct (Z.eqb_spec (Z.of_nat (n mod 2)) 0); cbn [negb]; symmetry.
  - apply bool_decide_eq_false. lia.
  - apply bool_decide_eq_true. lia.
Qed.

(** [median] on the store is [median] of the contents, and the only change
    of the store is the new array [nums]. *)
Lemma median_in_contents (s : Arr.store) (arr : Arr.ref) (l : list Q) :
  s !! arr = Some l ->
  median_in s arr = (median l, <[fresh (dom s) := Arr.sorted_by ascending l]> s).
Proof.
  intros Hl.
  assert (Hne : fresh (dom s) ≠ arr).
  { intros <-. apply (is_fresh (dom s)), elem_of_dom. by eexists. }
  unfold median_in, Arr.spread, Arr.sort, Arr.contents, median.
  rewrite Hl. simpl. rewrite alter_insert_eq.
  by rewrite lookup_insert_ne, Hl, lookup_insert_eq.
Qed.

(** The indices that [median] reads are in range when there is a sample. *)
Lemma median_of_defined (l nums : list Q) :
  length nums = length l -> l ≠ [] ->
  ∃ m, median_of (length l) (middle (length l)) nums = Some m
    ∧ ((length l mod 2 = 1)%nat -> nums !! (length l / 2)%nat = Some m)
    ∧ ((length l mod 2 = 0)%nat ->
       ∃ a b, nums !! (length l / 2 - 1)%nat = Some a
            ∧ nums !! (length l / 2)%nat = Some b ∧ m = (a + b) / 2).
Proof.
  intros Hlen Hne. unfold median_of. rewrite mid_div, odd_test.
  assert (0 < length l)%nat by (destruct l; [done | simpl; lia]).
  assert (Hmid : (length l / 2 < length nums)%nat)
    by (rewrite Hlen; apply Nat.div_lt; lia).
  destruct (lookup_lt_is_Some_2 nums _ Hmid) as [b Hb].
  case_bool_decide as Hodd.
  - exists b. rewrite get_lookup. split; [done|]. split; [done|].
    intros Heven. by rewrite Heven in Hodd.
  - assert (1 <= length l / 2)%nat.
    { apply (Nat.div_le_lower_bound _ 2 1); [lia|].
      pose proof (Nat.mod_upper_bound (length l) 2 ltac:(lia)).
      pose proof (Nat.div_mod_eq (length l) 2). lia. }
    destruct (lookup_lt_is_Some_2 nums (length l / 2 - 1)) as [a Ha]; [lia|].
    exists ((a + b) / 2).
    replace (Z.of_nat (length l / 2) - 1)%Z
      with (Z.of_nat (length l / 2 - 1)) by lia.
    rewrite !get_lookup.
    split; [by rewrite Ha, Hb|]. split; [done|]. by exists a, b.
Qed.

(** [median] does not depend on the order of the samples. *)
Lemma median_order (l l' : list Q) (m : Q) :
  l ≡ₚ l' -> median l = Some m -> ∃ m', median l' = Some m' ∧ m' == m.
Proof.
  intros Hp. unfold median, median_of.
  rewrite <- (Permutation_length Hp).
  pose proof (sorted_by_order _ _ Hp) as Hpw.
  set (nums := Arr.sorted_by ascending l) in *.
  set (nums' := Arr.sorted_by ascending l') in *.
  assert (Hget : ∀ i x, Arr.get nums i = Some x ->
                        ∃ y, Arr.get nums' i = Some y ∧ x == y).
  { unfold Arr.get. intros i x. destruct (i <? 0)%Z; [done|].
    intros Hx. by apply (Forall2_lookup_l _ _ _ _ _ Hpw). }
  destruct (negb _).
  - intros Hm. destruct (Hget _ _ Hm) as (y & -> & Hy). exists y.
    split; [done|lra].
  - intros Hm.
    apply bind_Some in Hm as (a & Ha & Hm).
    apply bind_Some in Hm as (b & Hb & [= <-]).
    destruct (Hget _ _ Ha) as (a' & -> & Ha').
    destruct (Hget _ _ Hb) as (b' & -> & Hb').
    exists ((a' + b') / 2). split; [done|]. by rewrite Ha', Hb'.
Qed.

(** C5. For a non-empty array [samples] of wind speeds, [median] returns
    the middle element of the ascending sort [nums] of the samples when
    their number is odd, and the average of the two middle elements when it
    is even; an array with the same samples in another order has the same
    median; and no array of the store is changed, the argument among them:
    what is sorted is a copy. *)
Theorem median_standard (s : Arr.store) (arr : Arr.ref) (samples : list Q) :
  s !! arr = Some samples -> samples ≠ [] ->
  ∃ (nums : list Q) (m : Q) (s' : Arr.store),
    median_in s arr = (Some m, s')
    ∧ Sorted Qle nums ∧ nums ≡ₚ samples
    ∧ ((length samples mod 2 = 1)%nat ->
       nums !! (length samples / 2)%nat = Some m)
    ∧ ((length samples mod 2 = 0)%nat ->
       ∃ a b, nums !! (length samples / 2 - 1)%nat = Some a
            ∧ nums !! (length samples / 2)%nat = Some b ∧ m = (a + b) / 2)
    ∧ (∀ s2 arr2 samples2,
         s2 !! arr2 = Some samples2 -> samples2 ≡ₚ samples ->
         ∃ m2, (median_in s2 arr2).1 = Some m2 ∧ m2 == m)
    ∧ (∀ r l, s !! r = Some l -> s' !! r = Some l).
Proof.
  intros Hs Hne. rewrite (median_in_contents s arr samples Hs).
  destruct (median_of_defined samples (Arr.sorted_by ascending samples))
    as (m & Hm & Hodd & Heven); [apply sorted_by_length|done|].
  exists (Arr.sorted_by ascending samples), m, (<[fresh (dom s) := Arr.sorted_by ascending samples]> s).
  split; [by unfold median; rewrite Hm|].
  split; [apply sorted_by_sorted|]. split; [apply sorted_by_perm|].
  split; [done|]. split; [done|]. split.
  - intros s2 arr2 samples2 Hs2 Hp.
    rewrite (median_in_contents s2 arr2 samples2 Hs2). simpl.
    apply (median_order samples); [by symmetry|done].
  - intros r l Hr. rewrite lookup_insert_ne; [done|].
    intros <-. apply (is_fresh (dom s)), elem_of_dom. by eexists.
Qed.

Lemma median_standard_witness :
  ∃ m, (median_in {[ 7%nat := [5; 7; 3; 9] ]} 7%nat).1 = Some m ∧ m == 6.
Proof.
  destruct (median_standard {[ 7%nat := [5; 7; 3; 9] ]} 7%nat [5; 7; 3; 9])
    as (nums & m & s' & Hm & _ & _ & _ & _ & Horder & _);
    [reflexivity | discriminate |].
  destruct (Horder {[ 7%nat := [5; 7; 3; 9] ]} 7%nat [5; 7; 3; 9])
    as (m2 & Hm2 & Heq); [reflexivity | reflexivity |].
  exists m. rewrite Hm. split; [reflexivity|].
  rewrite <- Heq. vm_compute in Hm2. injection Hm2 as <-. reflexivity.
Defined.

(** ** [timeSince] *)

Lemma interval_test (seconds size : Z) :
  (0 < size)%Z ->
  Num.gtb (inject_Z seconds / inject_Z size) 1 = (size <? seconds)%Z.
Proof.
  intros Hsize.
  assert (0 < inject_Z size) by (change 0 with (inject_Z 0); by rewrite <- Zlt_Qlt).
  destruct (Z.ltb_spec size seconds) as [Hlt|Hle]; order.
  - apply Qlt_shift_div_l; [done|]. rewrite Qmult_1_l. by rewrite <- Zlt_Qlt.
  - apply Qle_shift_div_r; [done|]. rewrite Qmult_1_l. by rewrite <- Zle_Qle.
Qed.

Lemma interval_floor (seconds size : Z) :
  Num.floor (inject_Z seconds / inject_Z size) = (seconds / size)%Z.
Proof. symmetry. apply Zdiv_Qdiv. Qed.

Lemma timeSince_humanized (now date : Z) :
  timeSince now date = humanized ((now - date) / 1000).
Proof.
  unfold timeSince, humanized, bucket_plural, bucket.
  change 1000 with (inject_Z 1000). rewrite interval_floor.
  set (seconds := ((now - date) / 1000)%Z).
  change 31536000 with (inject_Z 31536000).
  change 2592000 with (inject_Z 2592000).
  change 86400 with (inject_Z 86400).
  change 3600 with (inject_Z 3600).
  change 60 with (inject_Z 60).
  rewrite !interval_test, !interval_floor by done.
  unfold Num.floor. rewrite Qfloor_Z, Z.div_1_r.
  repeat case_match; reflexivity.
Qed.

(** C7. [timeSince] puts the elapsed seconds into descending buckets with
    strict thresholds (more than 31,536,000 s: years; more than
    2,592,000 s: months; more than 86,400 s: days; more than 3,600 s:
    hours; more than 60 s: minutes; seconds otherwise), the count being the
    integer quotient, with a singular for one hour and one minute only.
    90 seconds are "1 minute", 7200 seconds "2 hours", 90000 seconds
    "1 days". *)
Theorem timeSince_buckets :
  (∀ now date : Z,
     let seconds := ((now - date) / 1000)%Z in
     timeSince now date =
       if (31536000 <? seconds)%Z
       then pretty (seconds / 31536000)%Z +:+ " years"
       else if (2592000 <? seconds)%Z
       then pretty (seconds / 2592000)%Z +:+ " months"
       else if (86400 <? seconds)%Z
       then pretty (seconds / 86400)%Z +:+ " days"
       else if (3600 <? seconds)%Z
       then if (seconds / 3600 =? 1)%Z then "1 hour"
            else pretty (seconds / 3600)%Z +:+ " hours"
       else if (60 <? seconds)%Z
       then if (seconds / 60 =? 1)%Z then "1 minute"
            else pretty (seconds / 60)%Z +:+ " minutes"
       else pretty seconds +:+ " seconds")
  ∧ (∀ date, timeSince (date + 90 * 1000) date = "1 minute")
  ∧ (∀ date, timeSince (date + 7200 * 1000) date = "2 hours")
  ∧ (∀ date, timeSince (date + 90000 * 1000) date = "1 days").
Proof.
  assert (Hshift : ∀ date n : Z, ((date + n * 1000 - date) / 1000 = n)%Z)
    by (intros; replace (date + n * 1000 - date)%Z with (n * 1000)%Z by lia;
        by apply Z.div_mul).
  split; [|by repeat split; intros date; rewrite timeSince_humanized, Hshift].
  intros now date seconds. rewrite timeSince_humanized. fold seconds.
  unfold humanized, bucket_plural, bucket. rewrite Z.div_1_r.
  repeat case_match; try done;
    repeat match goal with
           | H : (_ =? _)%Z = true |- _ => apply Z.eqb_eq in H; rewrite H
           end; done.
Qed.

(** ** The submit cycle *)

(** The entry points and the callbacks other than the one of [request]
    leave [lastSuccessfulUpdate] alone. *)
Lemma assign_lastSuccessfulUpdate f v s s' :
  assign f v s = Normal s' -> lastSuccessfulUpdate s' = lastSuccessfulUpdate s.
Proof.
  destruct f; simpl; try (by intros [= <-]).
  destruct v as [|q|]; [done| |done]. intros [= <-].
  destruct (windGust s) as [g|]; [|done]. by destruct (Num.gtb _ g).
Qed.

Lemma processDelta_lastSuccessfulUpdate scope data s s' ms :
  processDelta scope data s = Normal (s', ms) ->
  lastSuccessfulUpdate s' = lastSuccessfulUpdate s.
Proof.
  unfold processDelta. intros H.
  repeat case_match; simplify_eq; try done.
  by eapply assign_lastSuccessfulUpdate.
Qed.

Lemma start_lastSuccessfulUpdate options w :
  lastSuccessfulUpdate (start options w).2 = lastSuccessfulUpdate w.2.
Proof. destruct w as [h s]. unfold start. by repeat case_match. Qed.

Lemma react_lastSuccessfulUpdate e w :
  is_Some (lastSuccessfulUpdate w.2) ->
  is_Some (lastSuccessfulUpdate (react e w).2).
Proof.
  destruct w as [h s]. intros Hs.
  destruct e as [options| |id now|sub data|now r].
  - unfold react. by rewrite start_lastSuccessfulUpdate.
  - done.
  - simpl. by repeat case_match.
  - simpl. destruct (subscriptions h !! sub); [|done].
    destruct (processDelta _ data s) as [[s' ms]|] eqn:E; [|done].
    simpl. by rewrite (processDelta_lastSuccessfulUpdate _ _ _ _ _ E).
  - simpl. destruct (inflight h); [done|].
    destruct r as [|statusCode body]; [done|]. simpl.
    by destruct (statusCode =? 200)%Z.
Qed.

(** C2. When the POST completes with status 200 and without a transport
    error, the callback sets [lastSuccessfulUpdate] to the current time and
    clears [position], [windSpeed], [windGust], [windDirection],
    [waterTemperature], [temperature], [pressure] and [humidity]; and no
    event of the plugin ever clears [lastSuccessfulUpdate] once it is
    set. *)
Theorem success_clears_buffer :
  (∀ (now : Z) (body : string) (s : State),
     let s' := (onReply now (Response 200 body) s).1 in
     lastSuccessfulUpdate s' = Some now
     ∧ position s' = None ∧ windSpeed s' = [] ∧ windGust s' = None
     ∧ windDirection s' = None ∧ waterTemperature s' = None
     ∧ temperature s' = None ∧ pressure s' = None ∧ humidity s' = None)
  ∧ (∀ (now : Z) (body : string) (h : Host) (s : State),
       (0 < inflight h)%nat ->
       (react (Complete now (Response 200 body)) (h, s)).2 = submitted now s)
  ∧ (∀ (es : list event) (w : World),
       is_Some (lastSuccessfulUpdate w.2) ->
       is_Some (lastSuccessfulUpdate (run es w).2)).
Proof.
  split; [by intros now body s|]. split.
  - intros now body h s Hin. simpl. destruct (inflight h); [lia|done].
  - intros es. induction es as [|e es IH]; intros w Hw; [done|].
    apply IH. by apply react_lastSuccessfulUpdate.
Qed.

Lemma success_clears_buffer_witness :
  is_Some (lastSuccessfulUpdate
             (run [Complete 5000 (Failed "ETIMEDOUT" "");
                   Deliver 0 (delta "navigation.position" VNull)]
                  (node, observed)).2).
Proof.
  destruct success_clears_buffer as (_ & _ & Hkept).
  apply (Hkept _ (node, observed)). by exists 1000%Z.
Defined.

(** C3. When the POST fails, by a transport error or by a status other
    than 200, the callback leaves every variable as it is: the whole
    buffer, the samples of [windSpeed] and [lastSuccessfulUpdate]
    included. *)
Theorem failure_keeps_buffer (now : Z) (r : reply) (h : Host) (s : State) :
  (∀ body, r ≠ Response 200 body) ->
  (onReply now r s).1 = s
  ∧ (react (Complete now r) (h, s)).2 = s.
Proof.
  intros Hr.
  assert (Hs : (onReply now r s).1 = s).
  { destruct r as [err body|statusCode body]; [done|]. simpl.
    destruct (Z.eqb_spec statusCode 200) as [->|]; [|done].
    by destruct (Hr body). }
  split; [done|]. simpl. destruct (inflight h); [done|].
  by destruct (onReply now r s).
Qed.

Lemma failure_keeps_buffer_witness :
  (onReply 5000 (Response 503 "Service Unavailable") observed).1 = observed
  ∧ (react (Complete 5000 (Response 503 "Service Unavailable"))
           (node, observed)).2 = observed.
Proof. apply failure_keeps_buffer. intros body. discriminate. Defined.

(** C4. At a submit tick, when [position] is unset, or [windSpeed] is
    empty, or [windDirection] is unset, or [temperature] is unset, no
    request is issued and every variable is left as it is. *)
Theorem incomplete_is_skipped
    (options : Options) (id : nat) (ms : Q) (now : Z) (h : Host) (s : State) :
  position s = None ∨ windSpeed s = [] ∨ windDirection s = None
    ∨ temperature s = None ->
  intervals h !! id = Some (SubmitCallback options, ms) ->
  requests (submitTick options s) = []
  ∧ (react (Interval id now) (h, s)).2 = s
  ∧ inflight (react (Interval id now) (h, s)).1 = inflight h.
Proof.
  intros Hmiss Hid.
  assert (Hnone : requests (submitTick options s) = []).
  { unfold submitTick.
    destruct Hmiss as [-> | [-> | [-> | ->]]]; [done|..]; by repeat case_match. }
  split; [done|]. simpl. rewrite Hid. simpl. rewrite Hnone. simpl.
  split; [done|lia].
Qed.

Lemma incomplete_is_skipped_witness :
  requests (submitTick configured (set_windDirection None observed)) = [].
Proof.
  apply (incomplete_is_skipped configured 1%nat 300000 0%Z
           {| intervals := {[ 1%nat := (SubmitCallback configured, 300000) ]};
              subscriptions := ∅; inflight := 0; global_options := None;
              asked := [] |}
           (set_windDirection None observed)).
  - right. right. left. reflexivity.
  - reflexivity.
Defined.

(** C10. On an empty array [median] reads the indices -1 and 0, which are
    out of range, and its result is [NaN]; a submit tick that issues a
    request has found [windSpeed] non-empty, so that the [wind] of every
    request is a number. *)
Theorem median_guarded :
  (Arr.get [] (-1) = None ∧ Arr.get [] 0 = None ∧ median [] = None)
  ∧ (∀ (options : Options) (s : State) (httpOptions : HttpOptions),
       httpOptions ∈ requests (submitTick options s) ->
       windSpeed s ≠ []
       ∧ ∃ m, wind <$> observations (json httpOptions) = [Some m]).
Proof.
  split; [done|]. intros options s o. unfold submitTick.
  destruct (position s), (windSpeed s) as [|x l] eqn:E, (windDirection s),
    (temperature s); simpl; try (by intros ?%elem_of_nil).
  intros ->%list_elem_of_singleton. split; [done|]. simpl.
  destruct (median_of_defined (x :: l) (Arr.sorted_by ascending (x :: l)))
    as (m & Hm & _); [apply sorted_by_length|done|].
  exists m. unfold median. by rewrite Hm.
Qed.

Lemma median_guarded_witness :
  windSpeed observed ≠ []
  ∧ ∃ m, wind <$> observations
           (json {| uri := API_BASE +:+ "key"; method := "POST";
                    json := {| stations :=
                                 [ {| station := 100;
                                      station_name := Some "Vessel";
                                      shareOption := "Open";
                                      type := "Boat (powered by Saillogger.com Signal K plugin)";
                                      station_provider := None;
                                      station_url := None;
                                      lat := Some 41; lon := Some (-70);
                                      elevation := 1 |} ];
                               observations :=
                                 [ {| observation_station := 100;
                                      temp := Some (Fin 27);
                                      wind := median [5; 7];
                                      gust := Some 7;
                                      winddir := Some (Fin 90);
                                      observation_pressure := None;
                                      rh := None |} ] |} |}) = [Some m].
Proof.
  destruct median_guarded as [_ Hguard].
  apply (Hguard configured observed). apply list_elem_of_singleton.
  reflexivity.
Defined.

(** ** The ingestor *)


(** Every other path gets to the second label, which reads [options]. *)
Lemma select_out_of_scope (path : string) :
  path ≠ "navigation.position" ->
  select None path clauses = Throw (ReferenceError "options").
Proof. intros Hne%String.eqb_neq. simpl. by rewrite Hne. Qed.

(** The block of the wind speed appends the rounded sample and keeps
    [windGust] the maximum of the samples. *)
Lemma assign_wind_speed (q : Q) (s : State) :
  ∃ s', assign FWindSpeed (VNum q) s = Normal s'
      ∧ windSpeed s' = windSpeed s ++ [Num.toFixed 2 (Num.nearest q)]
      ∧ (gust_is_max s -> gust_is_max s').
Proof.
  unfold assign, gust_is_max. set (speed := Num.toFixed 2 (Num.nearest q)).
  destruct (windGust s) as [gust|] eqn:Hg.
  - destruct (Num.gtb speed gust) eqn:E; order; eexists;
      (split; [reflexivity|]); simpl; (split; [done|]); rewrite ?Hg;
      intros [Hin Hmax]; (split; [set_solver|]); apply Forall_app.
    + split; [|apply Forall_singleton; lra].
      eapply Forall_impl; [done|]. simpl. intros x Hx. lra.
    + split; [done|]. by apply Forall_singleton.
  - eexists. split; [reflexivity|]. simpl. split; [done|]. intros ->.
    split; [set_solver|]. apply Forall_singleton. lra.
Qed.

Lemma assign_gust_is_max f v s s' :
  assign f v s = Normal s' -> gust_is_max s -> gust_is_max s'.
Proof.
  destruct f; try (by intros [= <-]).
  destruct v as [|q|]; [done| |done].
  destruct (assign_wind_speed q s) as (s1 & -> & _ & Hinv).
  by intros [= <-].
Qed.

(** The invariant of the gust holds after every event, whatever the scope
    of [processDelta]. *)
Lemma react_gust_is_max e w : gust_is_max w.2 -> gust_is_max (react e w).2.
Proof.
  destruct w as [h s]. intros Hs.
  destruct e as [options| |id now|sub data|now r]; simpl.
  - by repeat case_match.
  - done.
  - by repeat case_match.
  - destruct (subscriptions h !! sub); [|done].
    destruct (processDelta _ data s) as [[s' ms]|] eqn:E; [|done].
    simpl. unfold processDelta in E.
    repeat case_match; simplify_eq; try done.
    by eapply assign_gust_is_max.
  - destruct (inflight h); [done|].
    destruct r as [|statusCode body]; [done|]. simpl.
    by destruct (statusCode =? 200)%Z.
Qed.

Lemma run_gust_is_max es w : gust_is_max w.2 -> gust_is_max (run es w).2.
Proof.
  revert w. induction es as [|e es IH]; intros w Hw; [done|].
  apply IH. by apply react_gust_is_max.
Qed.

(** The block of the humidity stores the percentage, rounded: the double
    product of 100 and the value, then [Math.round]. *)
Lemma assign_humidity (q : Q) (s : State) :
  assign FHumidity (VNum q) s =
  Normal (set_humidity
            (Some (lift (fun x => inject_Z (Num.round x))
                     (rounded (Num.nearest q * 100)))) s).
Proof. reflexivity. Qed.

Lemma assign_humidity_455 (s : State) :
  assign FHumidity (VNum (455 # 1000)) s = Normal (set_humidity (Some (Fin 46)) s).
Proof. rewrite assign_humidity. by vm_compute (lift _ _). Qed.

(** On Node.js a delta of any path but the default position path ends in
    a ReferenceError, and the world is as before but for the report of the
    exception. *)
Lemma processDelta_throws (p : string) (v : value) (s : State) :
  p ≠ "navigation.position" ->
  processDelta None (delta p v) s = Throw (ReferenceError "options").
Proof.
  intros Hne. unfold processDelta, delta. cbn [updates values path].
  by rewrite (select_out_of_scope p Hne).
Qed.

Lemma deliver_throws (p : string) (v : value) (sub : nat) (w : World) :
  p ≠ "navigation.position" -> global_options w.1 = None ->
  (react (Deliver sub (delta p v)) w).2 = w.2
  ∧ global_options (react (Deliver sub (delta p v)) w).1 = None.
Proof.
  intros Hne Hh. destruct w as [h s]. simpl in *. rewrite Hh.
  destruct (subscriptions h !! sub); [|done].
  by rewrite (processDelta_throws p v s Hne).
Qed.







(** C6. On Node.js the updates of the wind speed, however many, change no
    variable: each of them ends in the ReferenceError of [processDelta].
    After a start and the samples 5 and 7, [windGust] is unset and
    [windSpeed] is empty. *)
Theorem gust_after_updates (samples : list Q) (sub : nat) (w : World) :
  global_options w.1 = None ->
  (run ((λ q, Deliver sub (delta "environment.wind.speedOverGround" (VNum q)))
          <$> samples) w).2 = w.2.
Proof.
  revert w. induction samples as [|q samples IH]; intros w Hw; [done|].
  destruct (deliver_throws "environment.wind.speedOverGround" (VNum q) sub w)
    as [Hs Hh]; [done..|].
  change (run (_ <$> q :: samples) w)
    with (run ((λ q, Deliver sub (delta "environment.wind.speedOverGround"
                                        (VNum q))) <$> samples)
              (react (Deliver sub (delta "environment.wind.speedOverGround"
                                         (VNum q))) w)).
  by rewrite IH, Hs.
Qed.

Lemma gust_after_updates_witness :
  let w := run [ Start configured;
                 Deliver 0 (delta "environment.wind.speedOverGround" (VNum 5));
                 Deliver 0 (delta "environment.wind.speedOverGround" (VNum 7)) ]
               (node, initial None) in
  windGust w.2 = None ∧ windSpeed w.2 = []
  ∧ uncaught (asked w.1)
    = [ ReferenceError "options"; ReferenceError "options" ].
Proof.
  intros w. unfold w.
  change (run _ _) with
    (run ((λ q, Deliver 0 (delta "environment.wind.speedOverGround" (VNum q)))
            <$> [5; 7]) (start configured (node, initial None))).
  rewrite (gust_after_updates [5; 7] 0 (start configured (node, initial None)));
    [|reflexivity].
  repeat split; reflexivity.
Defined.

(** C9. On Node.js an update of the humidity stores nothing: it ends in
    the ReferenceError of [processDelta].  So it is for 0.455 after a
    start. *)
Theorem humidity_after_update (q : Q) (sub : nat) (w : World) :
  global_options w.1 = None ->
  let d := delta "environment.outside.humidity" (VNum q) in
  processDelta (global_options w.1) d w.2 = Throw (ReferenceError "options")
  ∧ humidity (react (Deliver sub d) w).2 = humidity w.2.
Proof.
  intros Hw d. subst d. rewrite Hw. split; [by apply processDelta_throws|].
  by destruct (deliver_throws "environment.outside.humidity" (VNum q) sub w)
    as [-> _].
Qed.

Lemma humidity_after_update_witness :
  humidity
    (run [ Start configured;
           Deliver 0 (delta "environment.outside.humidity" (VNum (455 # 1000))) ]
         (node, initial None)).2 = None.
Proof.
  change (run _ _) with
    (react (Deliver 0 (delta "environment.outside.humidity" (VNum (455 # 1000))))
           (start configured (node, initial None))).
  destruct (humidity_after_update (455 # 1000) 0
              (start configured (node, initial None))) as [_ ->];
    reflexivity.
Defined.

(** ** The life cycle *)

Lemma clearInterval_subscriptions id h :
  subscriptions (clearInterval id h) = subscriptions h.
Proof. by destruct id. Qed.

(** [plugin.stop] calls none of the functions of [unsubscribes]. *)
Lemma stop_subscriptions (w : World) :
  subscriptions (stop w).1 = subscriptions w.1.
Proof.
  destruct w as [h s]. simpl. by rewrite !clearInterval_subscriptions.
Qed.

(** C8. [plugin.stop] clears the two intervals and leaves the subscription
    registered: after a start with an API key and a stop, on Node.js, no
    interval is left, the subscription of the start is still there, and a
    delta that it delivers still runs the ingestor, which sets
    [position]. *)
Theorem stop_keeps_subscription
    (options : Options) (vessel : option string) (key : string) :
  apiKey options = Some key -> key ≠ "" ->
  let w := run [Start options; Stop] (node, initial vessel) in
  intervals w.1 = ∅
  ∧ unsubscribes w.2 = [0%nat]
  ∧ is_Some (subscriptions w.1 !! 0%nat)
  ∧ ∀ la lo,
      position (react (Deliver 0 (delta "navigation.position" (VPosition la lo)))
                      w).2
      = Some (VPosition la lo).
Proof.
  intros Hkey Hne w. unfold w, run. cbn [foldl react].
  unfold start. rewrite Hkey. destruct key as [|c key]; [done|].
  vm_compute. repeat split; by eexists.
Qed.

Lemma stop_keeps_subscription_witness :
  is_Some (subscriptions (run [Start configured; Stop] (node, initial None)).1
             !! 0%nat).
Proof.
  by destruct (stop_keeps_subscription configured None "key")
    as (_ & _ & Hsub & _).
Defined.

(** * Further properties *)

(** ** Rounding *)

Lemma round_nearest (x : Q) :
  x - (1 # 2) < inject_Z (Num.round x) /\ inject_Z (Num.round x) <= x + (1 # 2).
Proof.
  unfold Num.round. pose proof (Qfloor_le (x + (1 # 2))) as Hle.
  pose proof (Qlt_floor (x + (1 # 2))) as Hlt.
  rewrite inject_Z_plus in Hlt. change (inject_Z 1) with 1 in Hlt.
  split; lra.
Qed.



(** The rounding of doubles at work: 263 K are -10.1 degrees, since the
    double 273.15 is a little below the decimal; [null] counts as 0 K; the
    humidity 0.285 is 28 percent, since the double product is a little
    below 28.5, and the humidity 0.015 is 2 percent, since the double
    product is 1.5. *)
Lemma doubles_at_work (s : State) :
  assign FTemperature (VNum 263) s
    = Normal (set_temperature (Some (Fin (- (101 # 10)))) s)
  ∧ assign FTemperature VNull s
    = Normal (set_temperature (Some (Fin (- (2731 # 10)))) s)
  ∧ assign FHumidity (VNum (285 # 1000)) s
    = Normal (set_humidity (Some (Fin 28)) s)
  ∧ assign FHumidity (VNum (15 # 1000)) s
    = Normal (set_humidity (Some (Fin 2)) s)
  ∧ assign FWindDirection (VNum (15708 # 10000)) s
    = Normal (set_windDirection (Some (Fin 90)) s).
Proof.
  unfold assign, kelvinToCelsius, radiantToDegrees.
  repeat split; f_equal; f_equal; f_equal; by vm_compute.
Qed.


Lemma knots_monotone (ms ms' : Q) :
  ms <= ms' -> metersPerSecondToKnots ms <= metersPerSecondToKnots ms'.
Proof.
  intros Hms. unfold metersPerSecondToKnots.
  apply Qmult_le_compat_r; [|done].
  rewrite <- Zle_Qle. unfold Num.round. apply Qfloor_resp_le. lra.
Qed.

(** X2. The knots of the status string: a whole number of tenths, within
    0.05 of [ms * 1.94384]; a greater speed never shows fewer knots. *)
Theorem knots_accuracy (ms : Q) :
  (∃ n : Z, metersPerSecondToKnots ms * 10 == inject_Z n)
  ∧ - (1 # 20) < metersPerSecondToKnots ms - ms * (194384 # 100000) <= 1 # 20
  ∧ ∀ ms', ms <= ms' ->
           metersPerSecondToKnots ms <= metersPerSecondToKnots ms'.
Proof.
  unfold metersPerSecondToKnots.
  pose proof (round_nearest (ms * (194384 # 100000) * 10)) as [Hlo Hhi].
  set (n := Num.round (ms * (194384 # 100000) * 10)) in *.
  assert (Hn : inject_Z n / 10 == inject_Z n * (1 # 10)) by field.
  split; [exists n; field|]. split; [rewrite Hn; split; lra|].
  apply knots_monotone.
Qed.

(** ** Batches, unknown paths and values of the wrong kind *)

(** X3. A delta without updates, or whose first update has no values, is
    ignored in every scope: no exception, no trace, no change, and nothing
    asked of the host. *)
Theorem malformed_delta_ignored
    (scope : option Options) (data : Delta) (h : Host) (sub : nat) (s : State) :
  updates data = None ∨ updates data = Some []
    ∨ (∃ u us, updates data = Some (u :: us)
             ∧ (values u = None ∨ values u = Some [])) ->
  processDelta scope data s = Normal (s, [])
  ∧ (react (Deliver sub data) (h, s)).2 = s
  ∧ asked (react (Deliver sub data) (h, s)).1 = asked h.
Proof.
  intros Hdata.
  assert (Hnone : ∀ scope, processDelta scope data s = Normal (s, [])).
  { intros sc. unfold processDelta.
    destruct Hdata as [-> | [-> | (u & us & -> & [-> | ->])]]; done. }
  split; [done|]. simpl. destruct (subscriptions h !! sub); [|done].
  rewrite Hnone. simpl. split; [done|]. apply app_nil_r.
Qed.

Lemma malformed_delta_ignored_witness :
  processDelta None {| updates := Some [ {| values := Some [] |} ] |} observed
  = Normal (observed, []).
Proof.
  apply (malformed_delta_ignored None _ node 0 observed).
  right. right. exists {| values := Some [] |}, []. split; [reflexivity|].
  right. reflexivity.
Defined.

(** Only the first value of the first update of a delta is looked at:
    a delta with more values and more updates does to the world what the
    delta of the first pair alone does. *)
Lemma first_pair_only
    (d : PathValue) (ds : list PathValue) (us : list Update)
    (sub : nat) (w : World) :
  react (Deliver sub {| updates := Some ({| values := Some (d :: ds) |} :: us) |}) w
  = react (Deliver sub (delta (path d) (value_of d))) w.
Proof. destruct w as [h s], d as [p v]. reflexivity. Qed.

Lemma select_none (options : Options) (p : string) cs :
  Forall (λ c, ¬ names options p c) cs ->
  select (Some options) p cs = Normal None.
Proof.
  induction 1 as [|[[literal sel] f] cs Hnot _ IH]; simpl; [done|].
  destruct (String.eqb_spec p literal) as [->|Hne].
  { destruct Hnot. by left. }
  rewrite bool_decide_eq_false_2; [done|]. intros Hsel. apply Hnot. by right.
Qed.

(** X4. With [options] in scope, a delta of a path that is neither a
    default name nor a configured path changes nothing and leaves the trace
    of the unknown path. *)
Theorem unknown_path_traced
    (options : Options) (p : string) (v : value) (s : State) :
  Forall (λ c, ¬ names options p c) clauses ->
  processDelta (Some options) (delta p v) s = Normal (s, [UnknownPath p]).
Proof.
  intros Hnot. unfold processDelta, delta. cbn [updates values path value_of].
  by rewrite (select_none options p clauses Hnot).
Qed.

Lemma unknown_path_traced_witness :
  processDelta (Some apparent) (delta "navigation.speedOverGround" (VNum 3))
               observed
  = Normal (observed, [UnknownPath "navigation.speedOverGround"]).
Proof.
  apply unknown_path_traced.
  repeat (apply Forall_cons; split; [intros [|]; discriminate|]).
  apply Forall_nil. exact I.
Defined.

(** X5. A delta that the [switch] takes for the wind speed and whose value
    is not a number ([null], or an object) ends in a TypeError at
    [value.toFixed]: the host sees the exception, and neither [windSpeed]
    nor any other variable changes. *)
Theorem wind_speed_wants_number
    (scope : option Options) (p : string) (v : value)
    (h : Host) (sub : nat) (s : State) :
  select scope p clauses = Normal (Some FWindSpeed) ->
  (∀ q, v ≠ VNum q) ->
  global_options h = scope -> is_Some (subscriptions h !! sub) ->
  processDelta scope (delta p v) s = Throw (TypeError "value.toFixed")
  ∧ (react (Deliver sub (delta p v)) (h, s)).2 = s
  ∧ asked (react (Deliver sub (delta p v)) (h, s)).1
    = asked h ++ [Uncaught (TypeError "value.toFixed")].
Proof.
  intros Hsel Hv Hscope [subscription Hsub].
  assert (Hthrow : processDelta scope (delta p v) s
                   = Throw (TypeError "value.toFixed")).
  { unfold processDelta, delta. cbn [updates values path value_of].
    rewrite Hsel. destruct v as [|q|la lo]; [done| |done]. by destruct (Hv q). }
  split; [done|]. simpl. by rewrite Hsub, Hscope, Hthrow.
Qed.

Lemma wind_speed_wants_number_witness :
  processDelta (Some configured)
               (delta "environment.wind.speedOverGround" VNull) observed
  = Throw (TypeError "value.toFixed").
Proof.
  apply (wind_speed_wants_number (Some configured) _ VNull scoped 0 observed).
  - reflexivity.
  - discriminate.
  - reflexivity.
  - by exists [].
Defined.

(** ** Invariants of the event loop *)

(** X6. From the initial state, on any host and after any events,
    [windGust] is unset exactly when [windSpeed] is empty, and is otherwise
    one of the samples of [windSpeed] and not below any of them. *)
Theorem gust_is_max_always
    (es : list event) (h : Host) (vessel : option string) :
  gust_is_max (run es (h, initial vessel)).2.
Proof. by apply run_gust_is_max. Qed.

Lemma median_elements (l : list Q) (m : Q) :
  median l = Some m ->
  ∃ a b, a ∈ l ∧ b ∈ l ∧ (m = a ∨ m = (a + b) / 2).
Proof.
  unfold median, median_of.
  assert (Hget : ∀ i x, Arr.get (Arr.sorted_by ascending l) i = Some x -> x ∈ l).
  { unfold Arr.get. intros i x. destruct (i <? 0)%Z; [done|].
    intros Hx%list_elem_of_lookup_2. by rewrite sorted_by_perm in Hx. }
  destruct (negb _).
  - intros Hm. exists m, m. split; [by eapply Hget|].
    split; [by eapply Hget|by left].
  - intros Hm. apply bind_Some in Hm as (a & Ha & Hm).
    apply bind_Some in Hm as (b & Hb & [= <-]).
    exists a, b. split; [by eapply Hget|]. split; [by eapply Hget|by right].
Qed.

Lemma median_le (l : list Q) (m g : Q) :
  median l = Some m -> Forall (λ x, x <= g) l -> m <= g.
Proof.
  intros (a & b & Ha & Hb & Hm)%median_elements Hall.
  rewrite Forall_forall in Hall. pose proof (Hall a Ha). pose proof (Hall b Hb).
  destruct Hm as [-> | ->]; [done|].
  apply Qle_shift_div_r; [done|]. lra.
Qed.

(** X7. The median of a non-empty array lies between two of its elements:
    it is not below the least sample and not above the greatest. *)
Theorem median_between (l : list Q) :
  l ≠ [] ->
  ∃ m lo hi, median l = Some m ∧ lo ∈ l ∧ hi ∈ l ∧ lo <= m <= hi.
Proof.
  intros Hne.
  destruct (median_of_defined l (Arr.sorted_by ascending l))
    as (m & Hm & _); [apply sorted_by_length|done|].
  destruct (median_elements l m Hm) as (a & b & Ha & Hb & Hab).
  exists m. destruct Hab as [-> | ->].
  { exists a, a. do 3 (split; [done|]). split; lra. }
  assert (Hhalf : (a + b) / 2 == (a + b) * (1 # 2)) by field.
  destruct (Qlt_le_dec a b).
  - exists a, b. do 3 (split; [done|]). rewrite Hhalf. split; lra.
  - exists b, a. do 3 (split; [done|]). rewrite Hhalf. split; lra.
Qed.

Lemma median_between_witness :
  ∃ m lo hi, median [5; 7; 3; 9] = Some m
           ∧ lo ∈ [5; 7; 3; 9] ∧ hi ∈ [5; 7; 3; 9] ∧ lo <= m <= hi.
Proof. apply median_between. discriminate. Defined.

(** X8. From the initial state, on any host and after any events, a
    request that a submit tick issues carries one observation, whose [wind]
    and [gust] are numbers, with [wind] not above [gust], and whose [gust]
    is one of the samples. *)
Theorem request_wind_below_gust
    (es : list event) (h : Host) (vessel : option string)
    (options : Options) (httpOptions : HttpOptions) :
  let s := (run es (h, initial vessel)).2 in
  httpOptions ∈ requests (submitTick options s) ->
  ∃ ob w g, observations (json httpOptions) = [ob]
          ∧ wind ob = Some w ∧ gust ob = Some g ∧ w <= g ∧ g ∈ windSpeed s.
Proof.
  intros s. pose proof (run_gust_is_max es (h, initial vessel) eq_refl) as Hinv.
  fold s in Hinv. revert Hinv. generalize s. clear s. intros s Hinv.
  unfold submitTick, gust_is_max in *.
  destruct (position s), (windSpeed s) as [|x l] eqn:E, (windDirection s),
    (temperature s); simpl; try (by intros ?%elem_of_nil).
  intros ->%list_elem_of_singleton. simpl.
  destruct (windGust s) as [g|]; [|done]. destruct Hinv as [Hin Hmax].
  destruct (median_of_defined (x :: l) (Arr.sorted_by ascending (x :: l)))
    as (m & Hm & _); [apply sorted_by_length|done|].
  eexists _, m, g. split; [reflexivity|]. simpl.
  split; [done|]. split; [done|]. split; [|done].
  by apply (median_le (x :: l)).
Qed.

Lemma request_wind_below_gust_witness :
  let es := [ Deliver 0 (delta "navigation.position" (VPosition 41 (-70)));
              Deliver 0 (delta "environment.wind.speedOverGround" (VNum 5));
              Deliver 0 (delta "environment.wind.speedOverGround" (VNum 7));
              Deliver 0 (delta "environment.wind.directionGround"
                               (VNum (15708 # 10000)));
              Deliver 0 (delta "environment.outside.temperature"
                               (VNum (30015 # 100))) ] in
  ∃ o ob w g,
    o ∈ requests (submitTick configured (run es (scoped, initial None)).2)
    ∧ observations (json o) = [ob]
    ∧ wind ob = Some w ∧ gust ob = Some g ∧ w <= g.
Proof.
  intros es.
  assert (Ho : ∃ o, requests (submitTick configured
                                (run es (scoped, initial None)).2) = [o])
    by (vm_compute; eexists; reflexivity).
  destruct Ho as [o Ho].
  destruct (request_wind_below_gust es scoped None configured o)
    as (ob & w & g & Hob & Hw & Hg & Hle & _).
  { rewrite Ho. apply list_elem_of_here. }
  exists o, ob, w, g. rewrite Ho.
  split; [apply list_elem_of_here|]. by repeat split.
Defined.

(** ** The plugin on Node.js *)

Lemma requests_app (es es' : list effect) :
  requests (es ++ es') = requests es ++ requests es'.
Proof. apply omap_app. Qed.

Lemma requests_debug (ms : list message) : requests (Debug <$> ms) = [].
Proof. induction ms; [done|]. simpl. done. Qed.

(** Without [options] in scope [processDelta] gets to the block of the
    position only. *)
Lemma processDelta_unscoped (data : Delta) (s s' : State) ms :
  processDelta None data s = Normal (s', ms) ->
  ms = [] ∧ (s' = s ∨ ∃ v, s' = set_position v s).
Proof.
  unfold processDelta.
  destruct (updates data) as [[|u us]|]; try (intros [= <- <-]; by auto).
  destruct (values u) as [[|[p v] ds]|]; try (intros [= <- <-]; by auto).
  cbn [path value_of select clauses label].
  destruct (String.eqb p "navigation.position"); [|done].
  intros [= <- <-]. split; [done|]. right. by eexists.
Qed.

Lemma start_at_rest (options : Options) (w : World) :
  at_rest w -> at_rest (start options w).
Proof.
  destruct w as [h s]. unfold at_rest. simpl.
  intros (Hg & Hi & Hr & Hs). unfold start.
  repeat case_match; simpl; rewrite ?requests_app, ?Hr, ?Hi; by simpl.
Qed.

Lemma react_at_rest (e : event) (w : World) : at_rest w -> at_rest (react e w).
Proof.
  intros Hw. destruct w as [h s].
  destruct e as [options| |id now|sub data|now r].
  { by apply (start_at_rest options (h, s)). }
  all: unfold at_rest in *; simpl in *;
    destruct Hw as (Hg & Hi & Hr & Hspeed & Hgust & Hlast).
  - destruct (statusProcess s), (submitProcess s); simpl;
      by rewrite requests_app, Hr, Hi.
  - destruct (intervals h !! id) as [[[|options] ms]|]; simpl;
      rewrite ?requests_app, ?Hr, ?Hi; [done| |done].
    unfold submitTick. rewrite Hspeed. by destruct (position s).
  - destruct (subscriptions h !! sub); [|done]. rewrite Hg.
    destruct (processDelta None data s) as [[s' ms]|err] eqn:E; simpl;
      rewrite requests_app, Hr, Hi; [|done].
    apply processDelta_unscoped in E as [-> [-> | [v ->]]]; done.
  - by rewrite Hi.
Qed.

Lemma run_at_rest (es : list event) (w : World) : at_rest w -> at_rest (run es w).
Proof.
  revert w. induction es as [|e es IH]; intros w Hw; [done|].
  apply IH. by apply react_at_rest.
Qed.

(** X9. On Node.js the plugin never submits: from the initial state and
    after any events, no request has been asked of the host, [windSpeed] is
    empty, [windGust] and [lastSuccessfulUpdate] are unset, and a status
    tick publishes "No data has been submitted yet. " and nothing more. *)
Theorem node_never_submits (es : list event) (vessel : option string) (now : Z) :
  let w := run es (node, initial vessel) in
  requests (asked w.1) = []
  ∧ windSpeed w.2 = [] ∧ windGust w.2 = None
  ∧ lastSuccessfulUpdate w.2 = None
  ∧ statusTick now w.2 = "No data has been submitted yet. ".
Proof.
  intros w.
  destruct (run_at_rest es (node, initial vessel)) as (_ & _ & Hr & Hs & Hg & Hl).
  { by repeat split. }
  fold w in Hr, Hs, Hg, Hl. repeat split; try done.
  unfold statusTick. by rewrite Hl, Hs.
Qed.

(** ** The time of the last submission *)

Lemma react_submission (e : event) (w : World) (t : Z) :
  lastSuccessfulUpdate (react e w).2 = Some t ->
  lastSuccessfulUpdate w.2 = Some t
  ∨ ∃ body, e = Complete t (Response 200 body).
Proof.
  destruct w as [h s]. destruct e as [options| |id now|sub data|now r].
  - unfold react. rewrite start_lastSuccessfulUpdate. by left.
  - by left.
  - simpl. repeat case_match; by left.
  - simpl. destruct (subscriptions h !! sub); [|by left].
    destruct (processDelta _ data s) as [[s' ms]|] eqn:E; [|by left].
    simpl. rewrite (processDelta_lastSuccessfulUpdate _ _ _ _ _ E). by left.
  - simpl. destruct (inflight h); [by left|].
    destruct r as [|statusCode body]; [by left|]. simpl.
    destruct (Z.eqb_spec statusCode 200) as [->|]; [|by left].
    simpl. intros [= ->]. right. by exists body.
Qed.

(** X10. [lastSuccessfulUpdate] is set by a successful submission only:
    when it holds [t] after some events, it held [t] before them or one of
    the events is the completion at the time [t] of a request with status
    200. *)
Theorem submission_time (es : list event) (w : World) (t : Z) :
  lastSuccessfulUpdate (run es w).2 = Some t ->
  lastSuccessfulUpdate w.2 = Some t
  ∨ ∃ body, Complete t (Response 200 body) ∈ es.
Proof.
  revert w. induction es as [|e es IH]; intros w Ht; [by left|].
  destruct (IH (react e w) Ht) as [Hw | [body Hin]].
  - destruct (react_submission e w t Hw) as [? | [body ->]]; [by left|].
    right. exists body. apply list_elem_of_here.
  - right. exists body. by apply list_elem_of_further.
Qed.

Lemma submission_time_witness :
  let busy := {| intervals := ∅; subscriptions := ∅; inflight := 1;
                 global_options := None; asked := [] |} in
  lastSuccessfulUpdate (busy, initial None).2 = Some 9000%Z
  ∨ ∃ body, Complete 9000 (Response 200 body)
            ∈ [Stop; Complete 9000 (Response 200 "ok")].
Proof.
  intros busy.
  apply (submission_time [Stop; Complete 9000 (Response 200 "ok")]
           (busy, initial None) 9000).
  reflexivity.
Defined.

(** ** Start and stop *)

(** What a start with an API key registers, and where it keeps it. *)
Lemma start_with_key (options : Options) (key : string) (h : Host) (s : State) :
  apiKey options = Some key -> key ≠ "" ->
  let status := fresh (dom (intervals h)) in
  let submit := fresh (dom (<[status := (StatusCallback, 5 * 1000)]> (intervals h))) in
  let sub := fresh (dom (subscriptions h)) in
  ∃ options' subscription,
    intervals (start options (h, s)).1
    = <[submit := (SubmitCallback options', submitInterval options * 60 * 1000)]>
        (<[status := (StatusCallback, 5 * 1000)]> (intervals h))
    ∧ subscriptions (start options (h, s)).1
      = <[sub := subscription]> (subscriptions h)
    ∧ subscribe_path <$> subscription
      = (λ c, or_else (paths options ≫= c.1.2) c.1.1)
          <$> [ ("navigation.position", paths_position, FPosition);
                ("environment.wind.directionGround", paths_windDirection,
                 FWindDirection);
                ("environment.wind.speedOverGround", paths_windSpeed,
                 FWindSpeed);
                ("environment.water.temperature", paths_waterTemperature,
                 FWaterTemperature);
                ("environment.outside.temperature", paths_outsideTemperature,
                 FTemperature);
                ("environment.outside.pressure", paths_pressure, FPressure);
                ("environment.outside.humidity", paths_humidity, FHumidity) ]
    ∧ period <$> subscription = replicate 7 1000
    ∧ statusProcess (start options (h, s)).2 = Some status
    ∧ submitProcess (start options (h, s)).2 = Some submit
    ∧ unsubscribes (start options (h, s)).2 = unsubscribes s ++ [sub].
Proof.
  intros Hkey Hne. unfold start. rewrite Hkey.
  destruct key as [|c key]; [done|]. simpl.
  eexists _, _. split; [reflexivity|]. split; [reflexivity|].
  split; [by destruct (paths options)|]. by repeat split.
Qed.

Lemma fresh_absent {A} (m : gmap nat A) : m !! fresh (dom m) = None.
Proof. apply not_elem_of_dom, is_fresh. Qed.

Lemma fresh_after_insert {A} (m : gmap nat A) (i : nat) (x : A) :
  i ≠ fresh (dom (<[i := x]> m)) ∧ m !! fresh (dom (<[i := x]> m)) = None.
Proof.
  pose proof (fresh_absent (<[i := x]> m)) as H.
  apply lookup_insert_None in H. by destruct H.
Qed.

Lemma stop_start_intervals
    (options : Options) (key : string) (h : Host) (s : State) :
  apiKey options = Some key -> key ≠ "" ->
  intervals (stop (start options (h, s))).1 = intervals h.
Proof.
  intros Hkey Hne.
  destruct (start_with_key options key h s Hkey Hne)
    as (options' & subscription & Hi & _ & _ & _ & Hstatus & Hsubmit & _).
  destruct (start options (h, s)) as [h' s']. simpl in *.
  rewrite Hstatus, Hsubmit. simpl. rewrite Hi.
  destruct (fresh_after_insert (intervals h) (fresh (dom (intervals h)))
              (StatusCallback, 5 * 1000)) as [Hdiff Habsent].
  rewrite delete_insert_ne by done.
  rewrite (delete_insert_id _ (fresh (dom (intervals h))))
    by apply fresh_absent.
  by apply delete_insert_id.
Qed.

(** X11. A start with an API key followed by a stop leaves the host with
    the intervals it had, whatever they were, and with one subscription
    more: each such cycle leaks a subscription. *)
Theorem start_stop_cycle
    (options : Options) (key : string) (h : Host) (s : State) :
  apiKey options = Some key -> key ≠ "" ->
  let w := stop (start options (h, s)) in
  intervals w.1 = intervals h
  ∧ size (subscriptions w.1) = S (size (subscriptions h))
  ∧ subscriptions h ⊆ subscriptions w.1.
Proof.
  intros Hkey Hne w. split; [by apply (stop_start_intervals options key)|].
  unfold w. rewrite stop_subscriptions.
  destruct (start_with_key options key h s Hkey Hne)
    as (options' & subscription & _ & -> & _).
  split.
  - apply map_size_insert_None, fresh_absent.
  - apply insert_subseteq, fresh_absent.
Qed.

Lemma start_stop_cycle_witness :
  size (subscriptions
          (stop (start configured (stop (start configured (node, initial None))))).1)
  = 2%nat.
Proof.
  destruct (stop (start configured (node, initial None))) as [h s] eqn:E.
  destruct (start_stop_cycle configured "key" h s) as (_ & -> & _);
    [reflexivity | discriminate |].
  replace h with (stop (start configured (node, initial None))).1
    by (by rewrite E).
  destruct (start_stop_cycle configured "key" node (initial None))
    as (_ & -> & _); [reflexivity | discriminate |].
  reflexivity.
Defined.

(** X12. A second start without a stop in between does not clear the
    intervals of the first: after start, start and stop the status
    interval and the submit interval of the first start are still
    registered, and the stop has cleared those of the second start only. *)
Theorem restart_keeps_intervals
    (first second : Options) (key key' : string) (h : Host) (s : State) :
  apiKey first = Some key -> key ≠ "" ->
  apiKey second = Some key' -> key' ≠ "" ->
  let w := run [Start first; Start second; Stop] (h, s) in
  intervals w.1 = intervals (start first (h, s)).1
  ∧ ∃ status submit options',
      status ≠ submit
      ∧ intervals w.1 !! status = Some (StatusCallback, 5 * 1000)
      ∧ intervals w.1 !! submit
        = Some (SubmitCallback options', submitInterval first * 60 * 1000).
Proof.
  intros Hkey Hne Hkey' Hne' w.
  assert (Hw : intervals w.1 = intervals (start first (h, s)).1).
  { unfold w, run. cbn [foldl].
    change (react (Start first) (h, s)) with (start first (h, s)).
    destruct (start first (h, s)) as [h1 s1].
    change (react (Start second) (h1, s1)) with (start second (h1, s1)).
    pose proof (stop_start_intervals second key' h1 s1 Hkey' Hne') as Hstop.
    by destruct (start second (h1, s1)) as [h2 s2]. }
  split; [done|]. rewrite Hw.
  destruct (start_with_key first key h s Hkey Hne)
    as (options' & subscription & -> & _).
  destruct (fresh_after_insert (intervals h) (fresh (dom (intervals h)))
              (StatusCallback, 5 * 1000)) as [Hdiff _].
  eexists _, _, options'. split; [exact Hdiff|].
  rewrite lookup_insert_ne by done. by rewrite !lookup_insert_eq.
Qed.

Lemma restart_keeps_intervals_witness :
  size (intervals (run [Start configured; Start apparent; Stop]
                       (node, initial None)).1) = 2%nat.
Proof.
  destruct (restart_keeps_intervals configured apparent "key" "key"
              node (initial None)) as [-> _];
    try reflexivity; discriminate.
Defined.



(** ** The subscription and the [switch] *)





(** ** More on the status reporter *)

(** X15. The count that [timeSince] prints is at least 1 in every bucket
    above the seconds and has an upper end that belongs to the bucket: up
    to 60 seconds are printed as seconds (also a negative time), then 1 to
    60 minutes, 1 to 24 hours, 1 to 30 days, 1 to 12 months, and years. *)
Theorem timeSince_counts (now date : Z) :
  let seconds := ((now - date) / 1000)%Z in
  ((seconds <= 60)%Z -> timeSince now date = pretty seconds +:+ " seconds")
  ∧ ((60 < seconds <= 3600)%Z ->
     ∃ n, (1 <= n <= 60)%Z
        ∧ timeSince now date
          = pretty n +:+ (if (n =? 1)%Z then " minute" else " minutes"))
  ∧ ((3600 < seconds <= 86400)%Z ->
     ∃ n, (1 <= n <= 24)%Z
        ∧ timeSince now date
          = pretty n +:+ (if (n =? 1)%Z then " hour" else " hours"))
  ∧ ((86400 < seconds <= 2592000)%Z ->
     ∃ n, (1 <= n <= 30)%Z ∧ timeSince now date = pretty n +:+ " days")
  ∧ ((2592000 < seconds <= 31536000)%Z ->
     ∃ n, (1 <= n <= 12)%Z ∧ timeSince now date = pretty n +:+ " months")
  ∧ ((31536000 < seconds)%Z ->
     ∃ n, (1 <= n)%Z ∧ timeSince now date = pretty n +:+ " years").
Proof.
  intros seconds. rewrite timeSince_humanized. fold seconds.
  unfold humanized, bucket_plural, bucket.
  repeat split; intros Hs;
    [|eexists (seconds / 60)%Z|eexists (seconds / 3600)%Z
     |eexists (seconds / 86400)%Z|eexists (seconds / 2592000)%Z
     |eexists (seconds / 31536000)%Z];
    try (split; [Z.div_mod_to_equations; lia|]);
    repeat match goal with
           | |- context [(?a <? ?b)%Z] => destruct (Z.ltb_spec a b); try lia
           end;
    rewrite ?Z.div_1_r; try done; by case_match.
Qed.

Lemma timeSince_counts_witness :
  ∃ n, (1 <= n <= 60)%Z
     ∧ timeSince 3600000 0
       = pretty n +:+ (if (n =? 1)%Z then " minute" else " minutes").
Proof.
  destruct (timeSince_counts 3600000 0) as (_ & Hminutes & _).
  apply Hminutes. vm_compute. split; [reflexivity|discriminate].
Defined.

(** ** Ticks that overlap *)

(** X16. The submit timer has no guard for a request on its way: two
    ticks in a row issue the request of the state twice, and the variables
    are as before. *)
Theorem ticks_overlap
    (options : Options) (id : nat) (ms : Q) (t1 t2 : Z) (h : Host) (s : State) :
  intervals h !! id = Some (SubmitCallback options, ms) ->
  let w := run [Interval id t1; Interval id t2] (h, s) in
  w.2 = s
  ∧ requests (asked w.1)
    = requests (asked h) ++ requests (submitTick options s)
        ++ requests (submitTick options s)
  ∧ inflight w.1
    = (inflight h + 2 * length (requests (submitTick options s)))%nat.
Proof.
  intros Hid w. unfold w. simpl. rewrite Hid. simpl. rewrite Hid. simpl.
  split; [done|]. split; [by rewrite !requests_app, (assoc_L (++))|lia].
Qed.

Lemma ticks_overlap_witness :
  let h := {| intervals := {[ 1%nat := (SubmitCallback configured, 300000) ]};
              subscriptions := ∅; inflight := 0; global_options := None;
              asked := [] |} in
  inflight (run [Interval 1 0; Interval 1 300000] (h, observed)).1 = 2%nat.
Proof.
  intros h.
  destruct (ticks_overlap configured 1 300000 0 300000 h observed)
    as (_ & _ & ->); reflexivity.
Defined.

(** ** The wind of the status string *)

(** X17. From the initial state, on any host and after any events, when
    there is a sample the status string ends with the latest sample and
    the gust, in knots, and the speed shown is not above the gust shown. *)
Theorem status_wind_below_gust
    (es : list event) (h : Host) (vessel : option string) (now : Z) (x : Q) :
  let s := (run es (h, initial vessel)).2 in
  last (windSpeed s) = Some x ->
  ∃ gust prefix,
    windGust s = Some gust
    ∧ metersPerSecondToKnots x <= metersPerSecondToKnots gust
    ∧ statusTick now s
      = prefix +:+ "Wind speed is "
          +:+ Num.toString (metersPerSecondToKnots x)
          +:+ "kts and gust is "
          +:+ Num.toString (metersPerSecondToKnots gust) +:+ "kts.".
Proof.
  intros s Hx.
  pose proof (run_gust_is_max es (h, initial vessel) eq_refl) as Hinv.
  fold s in Hinv. unfold gust_is_max in Hinv. unfold statusTick. rewrite Hx.
  destruct (windGust s) as [gust|]; [|by rewrite Hinv in Hx].
  destruct Hinv as [_ Hmax]. eexists gust, _. split; [done|].
  split; [|reflexivity]. apply knots_monotone.
  rewrite Forall_forall in Hmax. apply Hmax.
  apply last_Some in Hx as [l ->]. set_solver.
Qed.

Lemma status_wind_below_gust_witness :
  ∃ gust prefix,
    windGust (run [Deliver 0 (delta "environment.wind.speedOverGround" (VNum 5));
                   Deliver 0 (delta "environment.wind.speedOverGround" (VNum 3))]
                  (scoped, initial None)).2 = Some gust
    ∧ metersPerSecondToKnots 3 <= metersPerSecondToKnots gust
    ∧ statusTick 0
        (run [Deliver 0 (delta "environment.wind.speedOverGround" (VNum 5));
              Deliver 0 (delta "environment.wind.speedOverGround" (VNum 3))]
             (scoped, initial None)).2
      = prefix +:+ "Wind speed is "
          +:+ Num.toString (metersPerSecondToKnots 3)
          +:+ "kts and gust is "
          +:+ Num.toString (metersPerSecondToKnots gust) +:+ "kts.".
Proof.
  apply (status_wind_below_gust
           [Deliver 0 (delta "environment.wind.speedOverGround" (VNum 5));
            Deliver 0 (delta "environment.wind.speedOverGround" (VNum 3))]
           scoped None 0 3).
  reflexivity.
Defined.

(** ** Samples between two submissions *)

Lemma assign_keeps_samples f v s s' :
  assign f v s = Normal s' -> windSpeed s `prefix_of` windSpeed s'.
Proof.
  destruct f; try (by intros [= <-]).
  destruct v as [|q|]; [done| |done].
  destruct (assign_wind_speed q s) as (s1 & -> & Hspeed & _).
  intros [= <-]. rewrite Hspeed. by apply prefix_app_r.
Qed.

Lemma react_keeps_samples (e : event) (w : World) :
  (∀ now body, e ≠ Complete now (Response 200 body)) ->
  windSpeed w.2 `prefix_of` windSpeed (react e w).2.
Proof.
  intros He. destruct w as [h s].
  destruct e as [options| |id now|sub data|now r]; simpl.
  - unfold start. by repeat case_match.
  - done.
  - by repeat case_match.
  - destruct (subscriptions h !! sub); [|done].
    destruct (processDelta _ data s) as [[s' ms]|] eqn:E; [|done].
    simpl. unfold processDelta in E.
    repeat case_match; simplify_eq; try done.
    by eapply assign_keeps_samples.
  - destruct (inflight h); [done|].
    destruct r as [|statusCode body]; [done|]. simpl.
    destruct (Z.eqb_spec statusCode 200) as [->|]; [|done].
    by destruct (He now body).
Qed.

(** X18. Between two successful submissions no sample is lost: after any
    events without the completion of a request with status 200, the
    samples that [windSpeed] held are still there, in their order, in front
    of those that came since. *)
Theorem samples_accumulate (es : list event) (w : World) :
  Forall (λ e, ∀ now body, e ≠ Complete now (Response 200 body)) es ->
  windSpeed w.2 `prefix_of` windSpeed (run es w).2.
Proof.
  intros Hes. revert w.
  induction Hes as [|e es He _ IH]; intros w; [done|].
  etrans; [by apply react_keeps_samples|]. apply IH.
Qed.

Lemma samples_accumulate_witness :
  [5; 7] `prefix_of`
    windSpeed (run [ Complete 5000 (Response 503 "Service Unavailable");
                     Deliver 0 (delta "environment.wind.speedOverGround"
                                      (VNum 6)) ]
                   (scoped, observed)).2.
Proof.
  apply (samples_accumulate _ (scoped, observed)).
  repeat constructor; discriminate.
Defined.
